(** * Registry reconciliation engine of lido-keys-api

    A shallow embedding of
    - [src/common/registry/main/abstract-registry.ts] (the reconciler
      [AbstractRegistryService]),
    - [src/http/keys/keys.service.ts] ([KeysService]), and
    - the stall watchdog of [ValidatorsUpdateService],
    followed by the properties of the specification that concern them.

    Numbers that the contract declares unsigned (block numbers, counters,
    indices) are [N]; the JavaScript sentinel [-1] of [update] lives in [Z].
    Addresses, hashes and hex blobs are strings.  Tables are lists of rows,
    because the order of [findAll] and the conflict target of an upsert
    both matter below. *)

From Stdlib Require Import List NArith ZArith String Bool Lia.
Import ListNotations.

Local Open Scope string_scope.
Local Open Scope list_scope.
Local Open Scope N_scope.

(* ===================================================================== *)
(** * Entities *)
(* ===================================================================== *)

(** [RegistryMeta] as [getMetaDataFromContract] builds it. *)
Module Meta.
Record t : Type := mk
  { blockNumber : N;
    blockHash : string;
    keysOpIndex : N;
    timestamp : N }.
End Meta.

(** Modelled from the spec: the entity class [RegistryOperator]
    ([storage/operator.entity]) is not part of the sources; its columns are
    those of section 3 of the specification, with the [moduleAddress] that
    the test fixtures add to every row. *)
Module Operator.
Record t : Type := mk
  { index : N;
    active : bool;
    name : string;
    rewardAddress : string;
    stakingLimit : N;
    stoppedValidators : N;
    totalSigningKeys : N;
    usedSigningKeys : N;
    moduleAddress : string }.
End Operator.

(** Modelled from the spec: the entity class [RegistryKey]
    ([storage/key.entity]) is not part of the sources; columns as in
    section 3 and in the test fixtures. *)
Module Key.
Record t : Type := mk
  { index : N;
    operatorIndex : N;
    key : string;
    depositSignature : string;
    used : bool;
    moduleAddress : string }.
End Key.

(** The three tables of the store. [registry_meta] holds at most one row. *)
Record Store : Type := mkStore
  { metaT : option Meta.t;
    operatorT : list Operator.t;
    keyT : list Key.t }.

Definition emptyStore : Store := mkStore None [] [].

(* ===================================================================== *)
(** * The chain, as the reconciler sees it *)
(* ===================================================================== *)

(** [blockHashOrBlockTag: string | number] *)
Inductive BlockRef : Type :=
| RefString (s : string)
| RefNumber (n : N).

Record Block : Type := mkBlock
  { number : N;
    hash : string;
    block_timestamp : N }.

(** The fetch services and the provider.  [None] stands for a rejected
    promise (RPC failure, unknown block). *)
Record Chain : Type := mkChain
  { getBlock : BlockRef -> option Block;
    fetchKeysOpIndex : string -> option N;
    operatorFetch : Z -> Z -> string -> option (list Operator.t);
    keyFetch : N -> N -> N -> string -> option (list Key.t) }.

(* ===================================================================== *)
(** * Effects: store, call log and rejected promises *)
(* ===================================================================== *)

(** What one call does to the outside world, in order. *)
Inductive Event : Type :=
| EvGetBlock (ref : BlockRef)
| EvFetchKeysOpIndex (blockHash : string)
| EvFetchOperators (blockHash : string)
| EvFetchKeys (operatorIndex fromIndex toIndex : N) (blockHash : string)
| EvDeleteMeta
| EvPersistMeta (m : Meta.t)
| EvDeleteKeys (operatorIndex gte : N)
| EvInsertOperators (rows : list Operator.t)
| EvInsertKeys (rows : list Key.t).

Definition isOperatorFetch (e : Event) : bool :=
  match e with EvFetchOperators _ => true | _ => false end.

Definition isKeyFetch (e : Event) : bool :=
  match e with EvFetchKeys _ _ _ _ => true | _ => false end.

Definition isStoreWrite (e : Event) : bool :=
  match e with
  | EvDeleteMeta | EvPersistMeta _ | EvDeleteKeys _ _
  | EvInsertOperators _ | EvInsertKeys _ => true
  | _ => false
  end.

Definition isPersistMeta (e : Event) : bool :=
  match e with EvPersistMeta _ => true | _ => false end.

Record World : Type := mkWorld
  { db : Store;
    log : list Event }.

Inductive Exception : Type :=
| ChainUnavailable (what : Event).

Inductive outcome (A : Type) : Type :=
| Returned (a : A)
| Thrown (e : Exception).
Arguments Returned {A} a.
Arguments Thrown {A} e.

Definition M (A : Type) : Type := World -> outcome A * World.

Definition ret {A} (a : A) : M A := fun w => (Returned a, w).

Definition bind {A B} (m : M A) (k : A -> M B) : M B :=
  fun w =>
    match m w with
    | (Returned a, w') => k a w'
    | (Thrown e, w') => (Thrown e, w')
    end.

Declare Scope registry_scope.
Delimit Scope registry_scope with registry.
Notation "x <- m ;; k" := (bind m (fun x => k))
  (at level 61, m at next level, right associativity) : registry_scope.
Notation "m ;; k" := (bind m (fun _ => k))
  (at level 61, right associativity) : registry_scope.
Local Open Scope registry_scope.

Definition emit (e : Event) : M unit :=
  fun w => (Returned tt, mkWorld (db w) (log w ++ [e])).

Definition readStore {A} (f : Store -> A) : M A :=
  fun w => (Returned (f (db w)), w).

Definition writeStore (f : Store -> Store) : M unit :=
  fun w => (Returned tt, mkWorld (f (db w)) (log w)).

(** An awaited call to the outside: it is logged, then resolves or rejects. *)
Definition await {A} (e : Event) (r : option A) : M A :=
  fun w =>
    let w' := mkWorld (db w) (log w ++ [e]) in
    match r with
    | Some a => (Returned a, w')
    | None => (Thrown (ChainUnavailable e), w')
    end.

(** [entityManager.transactional]: the writes of the callback are committed
    when it resolves and rolled back when it rejects. *)
Definition transactional {A} (m : M A) : M A :=
  fun w =>
    match m w with
    | (Returned a, w') => (Returned a, w')
    | (Thrown e, w') => (Thrown e, mkWorld (db w) (log w'))
    end.

(** [Promise.all(xs.map(f))], run in list order. *)
Fixpoint forEach {A} (f : A -> M unit) (xs : list A) : M unit :=
  match xs with
  | [] => ret tt
  | x :: xs' => f x ;; forEach f xs'
  end.

(* ===================================================================== *)
(** * Store primitives *)
(* ===================================================================== *)

(** Conflict targets, as the query builders name them:
    [.onConflict(['index', 'operator_index'])] for keys and
    [.onConflict('index')] for operators. *)
Definition keyConflict (a b : Key.t) : bool :=
  (Key.index a =? Key.index b) && (Key.operatorIndex a =? Key.operatorIndex b).

Definition operatorConflict (a b : Operator.t) : bool :=
  Operator.index a =? Operator.index b.

(** [insert(row).onConflict(target).merge()] for one row: a stored row that
    agrees with [row] on the conflict target takes all columns of [row];
    without such a row, [row] is appended. *)
Definition upsertRow {R} (conflict : R -> R -> bool) (tbl : list R) (row : R)
  : list R :=
  if existsb (conflict row) tbl
  then map (fun old => if conflict row old then row else old) tbl
  else tbl ++ [row].

Definition upsert {R} (conflict : R -> R -> bool) (rows tbl : list R)
  : list R :=
  fold_left (upsertRow conflict) rows tbl.

(** [nativeDelete(RegistryKey, { index: { $gte }, operatorIndex })] *)
Definition deleteKeysGte (operatorIndex gte : N) (tbl : list Key.t)
  : list Key.t :=
  filter (fun k => negb ((gte <=? Key.index k)
                         && (Key.operatorIndex k =? operatorIndex))) tbl.

Definition setMeta (m : option Meta.t) (s : Store) : Store :=
  mkStore m (operatorT s) (keyT s).

Definition setOperators (f : list Operator.t -> list Operator.t) (s : Store)
  : Store :=
  mkStore (metaT s) (f (operatorT s)) (keyT s).

Definition setKeys (f : list Key.t -> list Key.t) (s : Store) : Store :=
  mkStore (metaT s) (operatorT s) (f (keyT s)).

Definition nativeDeleteMeta : M unit :=
  emit EvDeleteMeta ;; writeStore (setMeta None).

Definition persistMeta (m : Meta.t) : M unit :=
  emit (EvPersistMeta m) ;; writeStore (setMeta (Some m)).

Definition nativeDeleteKeys (operatorIndex gte : N) : M unit :=
  emit (EvDeleteKeys operatorIndex gte) ;;
  writeStore (setKeys (deleteKeysGte operatorIndex gte)).

Definition insertOperators (rows : list Operator.t) : M unit :=
  emit (EvInsertOperators rows) ;;
  writeStore (setOperators (upsert operatorConflict rows)).

Definition insertKeys (rows : list Key.t) : M unit :=
  emit (EvInsertKeys rows) ;;
  writeStore (setKeys (upsert keyConflict rows)).

(** [chunk] of [@lido-nestjs/utils]: consecutive slices of [size] rows. *)
Fixpoint chunkFuel {A} (fuel size : nat) (xs : list A) : list (list A) :=
  match fuel with
  | O => []
  | S fuel' =>
      match xs with
      | [] => []
      | _ => firstn size xs :: chunkFuel fuel' size (skipn size xs)
      end
  end.

Definition chunk {A} (xs : list A) (size : nat) : list (list A) :=
  chunkFuel (List.length xs) size xs.

(* ===================================================================== *)
(** * Diff policy *)
(* ===================================================================== *)

(** Modelled from the spec: [compareMeta] ([utils/meta.utils]) is not part
    of the sources.  Section 4.6: [prev != null], equal [keysOpIndex] and
    equal [blockHash]. *)
Definition compareMeta (prev curr : option Meta.t) : bool :=
  match prev, curr with
  | Some p, Some c =>
      (Meta.keysOpIndex p =? Meta.keysOpIndex c)
      && String.eqb (Meta.blockHash p) (Meta.blockHash c)
  | _, _ => false
  end.

Definition operatorEqb (a b : Operator.t) : bool :=
  (Operator.index a =? Operator.index b)
  && Bool.eqb (Operator.active a) (Operator.active b)
  && String.eqb (Operator.name a) (Operator.name b)
  && String.eqb (Operator.rewardAddress a) (Operator.rewardAddress b)
  && (Operator.stakingLimit a =? Operator.stakingLimit b)
  && (Operator.stoppedValidators a =? Operator.stoppedValidators b)
  && (Operator.totalSigningKeys a =? Operator.totalSigningKeys b)
  && (Operator.usedSigningKeys a =? Operator.usedSigningKeys b)
  && String.eqb (Operator.moduleAddress a) (Operator.moduleAddress b).

(** Modelled from the spec: [compareOperators] ([utils/operator.utils]) is
    not part of the sources.  Section 4.6: field-wise equality of all
    operator columns; a null [prev] gives false. *)
Definition compareOperators (prev curr : option Operator.t) : bool :=
  match prev, curr with
  | Some p, Some c => operatorEqb p c
  | _, _ => false
  end.

(** [abstract getToIndex(currOperator)]: the one method a concrete registry
    service supplies. *)
Class AbstractRegistryService : Type :=
  { getToIndex : Operator.t -> N }.

(** The key mirror; [registry.spec.ts] checks
    [getToIndex({ totalSigningKeys: 10 })] to be [10]. *)
Definition KeyRegistryService : AbstractRegistryService :=
  {| getToIndex := Operator.totalSigningKeys |}.

(** Modelled from the spec: the validator mirror is not part of the sources;
    section 4.6 gives its [getToIndex] as [curr.usedSigningKeys]. *)
Definition ValidatorRegistryService : AbstractRegistryService :=
  {| getToIndex := Operator.usedSigningKeys |}.

(* ===================================================================== *)
(** * The reconciler: [AbstractRegistryService] *)
(* ===================================================================== *)

Section Reconciler.

Context {service : AbstractRegistryService}.
Variable chain : Chain.

(** ** storage *)

(** Modelled from the spec: [metaStorage.get] is not part of the sources;
    section 4.5 [getMeta() -> Meta?]. *)
Definition getMetaDataFromStorage : M (option Meta.t) :=
  readStore metaT.

(** Modelled from the spec: [operatorStorage.findAll] is not part of the
    sources; section 4.5 [findAllOperators() -> [Operator]], here the rows
    in table order. *)
Definition getOperatorsFromStorage : M (list Operator.t) :=
  readStore operatorT.

(** ** contract *)

Definition getMetaDataFromContract (blockHashOrBlockTag : BlockRef)
  : M Meta.t :=
  block <- await (EvGetBlock blockHashOrBlockTag)
                 (getBlock chain blockHashOrBlockTag) ;;
  let blockHash := hash block in
  keysOpIndex <- await (EvFetchKeysOpIndex blockHash)
                       (fetchKeysOpIndex chain blockHash) ;;
  ret (Meta.mk (number block) blockHash keysOpIndex (block_timestamp block)).

Definition getOperatorsFromContract (blockHash : string)
  : M (list Operator.t) :=
  await (EvFetchOperators blockHash) (operatorFetch chain 0%Z (-1)%Z blockHash).

(** ** saving *)

Definition saveKeys (keys : list Key.t) : M unit :=
  transactional (forEach insertKeys (chunk keys 499)).

Definition saveOperatorsAndMeta (currentOperators : list Operator.t)
                                (currMeta : Meta.t) : M unit :=
  transactional
    (forEach (fun operator =>
                nativeDeleteKeys (Operator.index operator)
                                 (Operator.totalSigningKeys operator))
             currentOperators ;;
     forEach insertOperators (chunk currentOperators 499) ;;
     nativeDeleteMeta ;;
     persistMeta currMeta).

(** ** key sync *)

(** The left border of the range fetched for [currOperator], lines
    137-150 of the source. *)
Definition fromIndexOf (prevOperator : option Operator.t)
                       (currOperator : Operator.t) : N :=
  let isSameOperator := compareOperators prevOperator (Some currOperator) in
  let unchangedKeysMaxIndex :=
    if isSameOperator
    then match prevOperator with
         | Some p => Operator.usedSigningKeys p
         | None => 0
         end
    else 0 in
  let toIndex := getToIndex currOperator in
  if unchangedKeysMaxIndex <=? toIndex then unchangedKeysMaxIndex else 0.

(** The body of [for (const [currentIndex, currOperator] of
    currentOperators.entries())], from position [currentIndex] on. *)
Fixpoint syncFrom (previousOperators : list Operator.t)
                  (blockHash : string) (currentIndex : nat)
                  (rest : list Operator.t) : M unit :=
  match rest with
  | [] => ret tt
  | currOperator :: rest' =>
      let prevOperator := nth_error previousOperators currentIndex in
      let toIndex := getToIndex currOperator in
      let fromIndex := fromIndexOf prevOperator currOperator in
      let operatorIndex := Operator.index currOperator in
      result <- await (EvFetchKeys operatorIndex fromIndex toIndex blockHash)
                      (keyFetch chain operatorIndex fromIndex toIndex
                                blockHash) ;;
      saveKeys result ;;
      syncFrom previousOperators blockHash (S currentIndex) rest'
  end.

Definition syncUpdatedKeysWithContract
           (previousOperators currentOperators : list Operator.t)
           (blockHash : string) : M unit :=
  syncFrom previousOperators blockHash O currentOperators.

(** ** update *)

(** [update] resolves to [currMeta] on the slow path and to [undefined]
    ([None]) on the two early returns. *)
Definition update (blockHashOrBlockTag : BlockRef) : M (option Meta.t) :=
  prevMeta <- getMetaDataFromStorage ;;
  currMeta <- getMetaDataFromContract blockHashOrBlockTag ;;
  let isSameContractState := compareMeta prevMeta (Some currMeta) in
  let previousBlockNumber :=
    match prevMeta with
    | Some m => Z.of_N (Meta.blockNumber m)
    | None => (-1)%Z
    end in
  let currentBlockNumber := Z.of_N (Meta.blockNumber currMeta) in
  if (previousBlockNumber >? currentBlockNumber)%Z then ret None
  else if isSameContractState then
    transactional (nativeDeleteMeta ;; persistMeta currMeta) ;;
    ret None
  else
    let blockHash := Meta.blockHash currMeta in
    previousOperators <- getOperatorsFromStorage ;;
    currentOperators <- getOperatorsFromContract blockHash ;;
    saveOperatorsAndMeta currentOperators currMeta ;;
    syncUpdatedKeysWithContract previousOperators currentOperators
                                blockHash ;;
    ret (Some currMeta).

End Reconciler.

(** One call of [update] on a committed store, with a fresh call log. *)
Definition runUpdate {service : AbstractRegistryService}
           (chain : Chain) (ref : BlockRef) (s : Store)
  : outcome (option Meta.t) * World :=
  update chain ref (mkWorld s []).

(* ===================================================================== *)
(** * The HTTP read surface: [KeysService] *)
(* ===================================================================== *)

Module Http.

Inductive HttpException : Type :=
| TooEarly                      (* httpExceptionTooEarlyResp(), status 425 *)
| NotFound (message : string).  (* NotFoundException, status 404 *)

Inductive response (A : Type) : Type :=
| Resolved (a : A)
| Raised (e : HttpException).
Arguments Resolved {A} a.
Arguments Raised {A} e.

Record StakingRouterModule : Type := mkModule
  { type : string;
    stakingModuleAddress : string }.

(** [new ELBlockSnapshot(meta)] *)
Record ELBlockSnapshot : Type := mkSnapshot
  { blockNumber : N;
    blockHash : string;
    timestamp : N }.

Definition newELBlockSnapshot (meta : Meta.t) : ELBlockSnapshot :=
  mkSnapshot (Meta.blockNumber meta) (Meta.blockHash meta)
             (Meta.timestamp meta).

(** [new KeyWithModuleAddress(key, stakingModuleAddress)] *)
Record KeyWithModuleAddress : Type := mkKeyWithModuleAddress
  { row : Key.t;
    moduleAddress : string }.

Record KeyQuery : Type := mkKeyQuery
  { used : option bool;
    operatorIndex : option N }.

Record KeyListResponse : Type := mkKeyListResponse
  { data : list KeyWithModuleAddress;
    elBlockSnapshot : ELBlockSnapshot }.

(** The answer of [get]: the key stream (here the rows it yields) and the
    snapshot. *)
Record KeyStreamResponse : Type := mkKeyStreamResponse
  { keysStream : list Key.t;
    streamSnapshot : ELBlockSnapshot }.

(** [CuratedModuleService], of which only the three reads used here
    matter; each answers with rows and the stored meta. *)
Record CuratedModuleService : Type := mkCurated
  { getKeysWithMetaStream : KeyQuery -> list Key.t * option Meta.t;
    getKeyWithMetaByPubkey : string -> list Key.t * option Meta.t;
    getKeysWithMetaByPubkeys : list string -> list Key.t * option Meta.t }.

(** Modelled from the spec: the curated module service is not part of the
    sources; section 6 has it read the store: [findAllKeys] with the
    filters of the query, [findKeysByPubkey(s)], and [getMeta]. *)
Definition curatedServiceOf (s : Store) : CuratedModuleService :=
  {| getKeysWithMetaStream := fun q =>
       (filter (fun k =>
                  match used q with
                  | Some u => Bool.eqb (Key.used k) u
                  | None => true
                  end
                  && match operatorIndex q with
                     | Some i => Key.operatorIndex k =? i
                     | None => true
                     end) (keyT s),
        metaT s);
     getKeyWithMetaByPubkey := fun pubkey =>
       (filter (fun k => String.eqb (Key.key k) pubkey) (keyT s), metaT s);
     getKeysWithMetaByPubkeys := fun pubkeys =>
       (filter (fun k => existsb (String.eqb (Key.key k)) pubkeys) (keyT s),
        metaT s) |}.

Section KeysService.

(** [STAKING_MODULE_TYPE.CURATED_ONCHAIN_V1_TYPE]; the enum is declared
    outside the sources. *)
Variable CURATED_ONCHAIN_V1_TYPE : string.
Variable stakingModules : list StakingRouterModule.
Variable curatedService : CuratedModuleService.

Definition get (filters : KeyQuery) : response KeyStreamResponse :=
  if (List.length stakingModules =? 0)%nat then Raised TooEarly
  else
    let '(keysStream, meta) :=
      getKeysWithMetaStream curatedService
        (mkKeyQuery (used filters) (operatorIndex filters)) in
    match meta with
    | None => Raised TooEarly
    | Some meta =>
        let elBlockSnapshot := Some (newELBlockSnapshot meta) in
        match elBlockSnapshot with
        | None => Raised TooEarly
        | Some elBlockSnapshot =>
            Resolved (mkKeyStreamResponse keysStream elBlockSnapshot)
        end
    end.

(** The loop [for (let i = 0; i < stakingModules.length; i++)] shared by
    [getByPubkey] and [getByPubkeys], from position [i] on; [query] is
    the read of the curated service made in the loop body. *)
Fixpoint collectFrom (query : unit -> list Key.t * option Meta.t)
         (i : nat) (rest : list StakingRouterModule)
         (collectedKeys : list (list KeyWithModuleAddress))
         (elBlockSnapshot : option ELBlockSnapshot)
  : response (list (list KeyWithModuleAddress) * option ELBlockSnapshot) :=
  match rest with
  | [] => Resolved (collectedKeys, elBlockSnapshot)
  | module :: rest' =>
      if String.eqb (type module) CURATED_ONCHAIN_V1_TYPE then
        let '(curatedKeys, meta) := query tt in
        match meta with
        | None => Raised TooEarly
        | Some meta =>
            let keysWithAddress :=
              map (fun key =>
                     mkKeyWithModuleAddress key
                       (stakingModuleAddress module)) curatedKeys in
            let elBlockSnapshot' :=
              if (i =? 0)%nat then Some (newELBlockSnapshot meta)
              else elBlockSnapshot in
            collectFrom query (S i) rest'
                        (collectedKeys ++ [keysWithAddress])
                        elBlockSnapshot'
        end
      else collectFrom query (S i) rest' collectedKeys elBlockSnapshot
  end.

Definition getByPubkey (pubkey : string) : response KeyListResponse :=
  if (List.length stakingModules =? 0)%nat then Raised TooEarly
  else
    match collectFrom
            (fun _ => getKeyWithMetaByPubkey curatedService pubkey)
            O stakingModules [] None with
    | Raised e => Raised e
    | Resolved (_, None) => Raised TooEarly
    | Resolved (collectedKeys, Some elBlockSnapshot) =>
        let keys := List.concat collectedKeys in
        if (List.length keys =? 0)%nat
        then Raised (NotFound ("There are no keys with " ++ pubkey
                               ++ " public key in db.")%string)
        else Resolved (mkKeyListResponse keys elBlockSnapshot)
    end.

Definition getByPubkeys (pubkeys : list string)
  : response KeyListResponse :=
  if (List.length stakingModules =? 0)%nat then Raised TooEarly
  else
    match collectFrom
            (fun _ => getKeysWithMetaByPubkeys curatedService pubkeys)
            O stakingModules [] None with
    | Raised e => Raised e
    | Resolved (_, None) => Raised TooEarly
    | Resolved (collectedKeys, Some elBlockSnapshot) =>
        Resolved (mkKeyListResponse (List.concat collectedKeys)
                                    elBlockSnapshot)
    end.

End KeysService.

End Http.

(* ===================================================================== *)
(** * The stall watchdog of [ValidatorsUpdateService] *)
(* ===================================================================== *)

Module Watchdog.

(** [UPDATE_VALIDATORS_TIMEOUT_MS = 90 * 60 * 1000] *)
Definition UPDATE_VALIDATORS_TIMEOUT_MS : N := 90 * 60 * 1000.

(** [class ValidatorsOutdatedError extends Error], with the number of
    minutes already printed into the message. *)
Record ValidatorsOutdatedError : Type := mkError
  { message : string;
    lastBlock : option N }.

(** What [validatorsService.updateValidators] resolves to. *)
Record ValidatorsMeta : Type := mkValidatorsMeta
  { timestamp : N;
    blockNumber : N;
    slot : N }.

(** The fields of the service; [None] is [undefined]. *)
Record Service : Type := mkService
  { lastBlockTimestampSec : option N;
    lastBlockNumber : option N;
    lastSlot : option N;
    updateDeadlineTimer : option nat }.

(** The process around it: the wall clock in milliseconds, the timeouts
    that are set and not cleared (handle, time at which they fire), and
    the exit code with the logged error once [process.exit] ran. *)
Record Process : Type := mkProcess
  { now : N;
    pending : list (nat * N);
    nextHandle : nat;
    this : Service;
    exited : option (N * ValidatorsOutdatedError) }.

Definition start (wallClock : N) : Process :=
  mkProcess wallClock [] O (mkService None None None None) None.

Definition clearTimeout (handle : nat) (p : Process) : Process :=
  mkProcess (now p)
            (filter (fun t => negb (fst t =? handle)%nat) (pending p))
            (nextHandle p) (this p) (exited p).

(** [setTimeout(callback, ms)]; every callback of this service is the
    same, so only the time of firing is kept. *)
Definition setTimeout (ms : N) (p : Process) : nat * Process :=
  (nextHandle p,
   mkProcess (now p) (pending p ++ [(nextHandle p, now p + ms)])
             (S (nextHandle p)) (this p) (exited p)).

(** [this.lastBlockTimestampSec && currTimestampSec -
    this.lastBlockTimestampSec < this.UPDATE_VALIDATORS_TIMEOUT_MS / 1000],
    with [currTimestampSec = now / 1000]; both sides are multiplied by
    1000 to stay in whole milliseconds.  [undefined] and [0] are falsy. *)
Definition isUpdated (p : Process) : bool :=
  match lastBlockTimestampSec (this p) with
  | None => false
  | Some last =>
      negb (last =? 0)
      && (now p <? last * 1000 + UPDATE_VALIDATORS_TIMEOUT_MS)
  end.

Definition checkValidatorsUpdateTimeout (p : Process) : Process :=
  let p1 :=
    match updateDeadlineTimer (this p) with
    | Some handle => if isUpdated p then clearTimeout handle p else p
    | None => p
    end in
  let '(handle, p2) := setTimeout UPDATE_VALIDATORS_TIMEOUT_MS p1 in
  mkProcess (now p2) (pending p2) (nextHandle p2)
            (mkService (lastBlockTimestampSec (this p2))
                       (lastBlockNumber (this p2))
                       (lastSlot (this p2))
                       (Some handle))
            (exited p2).

(** The callback of [wrapJob] in [updateValidators], once
    [validatorsService.updateValidators('finalized')] has resolved to
    [meta]. *)
Definition updateValidatorsResolved (meta : option ValidatorsMeta)
           (p : Process) : Process :=
  let s := this p in
  let s' :=
    mkService
      (match meta with Some m => Some (timestamp m)
                     | None => lastBlockTimestampSec s end)
      (match meta with Some m => Some (blockNumber m)
                     | None => lastBlockNumber s end)
      (match meta with Some m => Some (slot m)
                     | None => lastSlot s end)
      (updateDeadlineTimer s) in
  checkValidatorsUpdateTimeout
    (mkProcess (now p) (pending p) (nextHandle p) s' (exited p)).

(** [new ValidatorsOutdatedError(message, this.lastBlockNumber)], with
    [UPDATE_VALIDATORS_TIMEOUT_MS / (60 * 1000)] printed as [90]. *)
Definition outdated (lastBlock : option N) : ValidatorsOutdatedError :=
  mkError "There were no validators update more than 90 minutes" lastBlock.

(** The callback of the deadline timer: log the error, [process.exit(1)]. *)
Definition deadlineCallback (p : Process) : Process :=
  mkProcess (now p) (pending p) (nextHandle p) (this p)
            (Some (1, outdated (lastBlockNumber (this p)))).

(** The earliest firing time among the pending timeouts, if any. *)
Definition earliest (timers : list (nat * N)) : option N :=
  fold_right (fun t acc =>
                match acc with
                | Some d => Some (N.min (snd t) d)
                | None => Some (snd t)
                end) None timers.

(** The clock moves on by [ms]; a timeout that is due by then fires. *)
Definition elapse (ms : N) (p : Process) : Process :=
  match earliest (pending p) with
  | Some due =>
      if due <=? now p + ms
      then deadlineCallback
             (mkProcess (N.max (now p) due) (pending p) (nextHandle p)
                        (this p) (exited p))
      else mkProcess (now p + ms) (pending p) (nextHandle p) (this p)
                     (exited p)
  | None => mkProcess (now p + ms) (pending p) (nextHandle p) (this p)
                      (exited p)
  end.

Inductive Step : Type :=
| Elapse (ms : N)
| CycleSucceeded (meta : option ValidatorsMeta).

(** Nothing runs after [process.exit]. *)
Definition step (p : Process) (s : Step) : Process :=
  match exited p with
  | Some _ => p
  | None =>
      match s with
      | Elapse ms => elapse ms p
      | CycleSucceeded meta => updateValidatorsResolved meta p
      end
  end.

Definition run (steps : list Step) (p : Process) : Process :=
  fold_left step steps p.

(** A stretch of time in which no update cycle succeeds. *)
Definition isElapse (s : Step) : bool :=
  match s with Elapse _ => true | CycleSucceeded _ => false end.

(** The time that passes in [steps]. *)
Definition elapsed (steps : list Step) : N :=
  fold_right (fun s acc => match s with
                           | Elapse ms => ms + acc
                           | CycleSucceeded _ => acc
                           end) 0 steps.

(** [initialize], up to its first statement. *)
Definition initialize (wallClock : N) : Process :=
  checkValidatorsUpdateTimeout (start wallClock).

End Watchdog.

(* ===================================================================== *)
(** * Statements of the specification, and fixtures *)
(* ===================================================================== *)

(** No operator fetch, no key fetch and no store write among [events]. *)
Definition quiet (events : list Event) : bool :=
  forallb (fun e => negb (isOperatorFetch e || isKeyFetch e || isStoreWrite e))
          events.

(** No operator fetch and no key fetch among [events]. *)
Definition noFetch (events : list Event) : bool :=
  forallb (fun e => negb (isOperatorFetch e || isKeyFetch e)) events.

(** The key fetches among [events], in order. *)
Definition keyFetches (events : list Event) : list Event :=
  filter isKeyFetch events.

(** Section 4.7 (c) as the specification words it:
    [prev = prevOperators[curr.index]], the stored operator whose contract
    index is [curr.index], or null. *)
Definition prevByIndex (prevOperators : list Operator.t)
           (curr : Operator.t) : option Operator.t :=
  find (fun p => Operator.index p =? Operator.index curr) prevOperators.

(** Section 4.6 as the specification words it: [getFromIndex(prev, curr)]
    is [prev.usedSigningKeys] if [compareOperator(prev, curr)], else [0];
    and [0] if that would exceed [to]. *)
Definition getFromIndex {service : AbstractRegistryService}
           (prev : option Operator.t) (curr : Operator.t) : N :=
  let from :=
    match prev with
    | Some p => if compareOperators prev (Some curr)
                then Operator.usedSigningKeys p else 0
    | None => 0
    end in
  if getToIndex curr <? from then 0 else from.

(** The key fetch the loop issues for [curr], given the operator [prev] it
    is compared against. *)
Definition keyRequest {service : AbstractRegistryService}
           (blockHash : string) (prev : option Operator.t)
           (curr : Operator.t) : Event :=
  EvFetchKeys (Operator.index curr) (fromIndexOf prev curr) (getToIndex curr)
              blockHash.

(** The key fetches of one sync if [prev] were looked up by operator index,
    as section 4.7 (c) says. *)
Definition requestsByIndex {service : AbstractRegistryService}
           (previousOperators currentOperators : list Operator.t)
           (blockHash : string) : list Event :=
  map (fun curr => keyRequest blockHash (prevByIndex previousOperators curr) curr)
      currentOperators.

(** The key fetches of the loop from position [i] on, with [prev] taken at
    the position of [curr]. *)
Definition requestsFromPosition {service : AbstractRegistryService}
           (previousOperators : list Operator.t) (blockHash : string)
           (i : nat) (rest : list Operator.t) : list Event :=
  map (fun ic => keyRequest blockHash (nth_error previousOperators (fst ic))
                            (snd ic))
      (combine (seq i (List.length rest)) rest).

Definition requestsByPosition {service : AbstractRegistryService}
           (previousOperators currentOperators : list Operator.t)
           (blockHash : string) : list Event :=
  requestsFromPosition previousOperators blockHash O currentOperators.

(** A key fetch whose range is the one section 4.6 prescribes for some
    current operator and the previous operator at its position, and whose
    left border does not exceed the right one. *)
Definition rangeAsSpecified {service : AbstractRegistryService}
           (previousOperators currentOperators : list Operator.t)
           (e : Event) : Prop :=
  match e with
  | EvFetchKeys operatorIndex fromIndex toIndex _ =>
      fromIndex <= toIndex
      /\ exists i curr,
          nth_error currentOperators i = Some curr
          /\ operatorIndex = Operator.index curr
          /\ toIndex = getToIndex curr
          /\ fromIndex = getFromIndex (nth_error previousOperators i) curr
  | _ => True
  end.

(** Operators as the contract lists them: ascending by index, dense from
    0 (section 4.3). *)
Definition denseAscending (operators : list Operator.t) : Prop :=
  map (fun o => N.to_nat (Operator.index o)) operators
  = seq 0 (List.length operators).

(** Invariant 2 of section 3 for one key: some stored operator has the
    key's [operatorIndex] and more signing keys than the key's index. *)
Definition keyBounded (operators : list Operator.t) (k : Key.t) : bool :=
  existsb (fun o => (Operator.index o =? Key.operatorIndex k)
                    && (Key.index k <? Operator.totalSigningKeys o))
          operators.

Definition totalBound (s : Store) : bool :=
  forallb (keyBounded (operatorT s)) (keyT s).

(** What the reconciler relies on from the two fetchers (sections 4.3 and
    4.4):
    - the operators of one block have pairwise different indices, and
      [getToIndex] stays within [totalSigningKeys] for each;
    - the keys fetched for [(operatorIndex, from, to)] carry that
      [operatorIndex] and an index in [[from, to)]. *)
Definition fetchersBehave {service : AbstractRegistryService}
           (chain : Chain) : Prop :=
  (forall a b h operators,
      operatorFetch chain a b h = Some operators ->
      NoDup (map Operator.index operators)
      /\ Forall (fun o => getToIndex o <= Operator.totalSigningKeys o)
                operators)
  /\ (forall operatorIndex from to h keys,
         keyFetch chain operatorIndex from to h = Some keys ->
         Forall (fun k => Key.operatorIndex k = operatorIndex
                          /\ from <= Key.index k /\ Key.index k < to) keys).

(** All deletes of [saveOperatorsAndMeta], in list order. *)
Definition deleteTails (operators : list Operator.t) (keys : list Key.t)
  : list Key.t :=
  fold_left (fun tbl o => deleteKeysGte (Operator.index o)
                                        (Operator.totalSigningKeys o) tbl)
            operators keys.

(** A sequence of [update] calls, each against the chain as it is then. *)
Definition updates {service : AbstractRegistryService}
           (calls : list (Chain * BlockRef)) (s : Store) : Store :=
  fold_left (fun s call => db (snd (runUpdate (fst call) (snd call) s)))
            calls s.





(** ** Fixtures: scenario S1 of section 8 *)

Module Fixture.

Definition address : string := "0x55032650b14df07b85bf18a3a3ec8e0af2e028d5".

Definition operator0 : Operator.t :=
  Operator.mk 0 true "first" "0xaa" 3 0 3 1 address.

Definition operator1 : Operator.t :=
  Operator.mk 1 true "second" "0xbb" 2 0 2 0 address.

Definition key (operatorIndex index : N) (pubkey : string) (used : bool)
  : Key.t :=
  Key.mk index operatorIndex pubkey "0x5167" used address.

Definition contractKeys : list Key.t :=
  [ key 0 0 "0xa0" true; key 0 1 "0xa1" false; key 0 2 "0xa2" false;
    key 1 0 "0xb0" false; key 1 1 "0xb1" false ].

Definition rangeOf (operatorIndex from to : N) (keys : list Key.t)
  : list Key.t :=
  filter (fun k => (Key.operatorIndex k =? operatorIndex)
                   && (from <=? Key.index k) && (Key.index k <? to)) keys.

(** A chain whose every reference resolves to [block], with the given
    [keysOpIndex], operators and keys. *)
Definition chainAt (block : Block) (keysOpIndex : N)
           (operators : list Operator.t) (keys : list Key.t) : Chain :=
  {| getBlock := fun _ => Some block;
     fetchKeysOpIndex := fun _ => Some keysOpIndex;
     operatorFetch := fun _ _ _ => Some operators;
     keyFetch := fun operatorIndex from to _ =>
                   Some (rangeOf operatorIndex from to keys) |}.

Definition block100 : Block := mkBlock 100 "0xAA" 1700.

Definition chainS1 : Chain :=
  chainAt block100 7 [operator0; operator1] contractKeys.

Definition meta100 : Meta.t := Meta.mk 100 "0xAA" 7 1700.

(** The store after the bootstrap of S1. *)
Definition storeS1 : Store :=
  mkStore (Some meta100) [operator0; operator1] contractKeys.

(** The block hash of [block100] reported under another number and time. *)
Definition chainRenumbered : Chain :=
  chainAt (mkBlock 101 "0xAA" 1712) 7 [operator0; operator1] contractKeys.

(** An older block. *)
Definition chainOlder : Chain :=
  chainAt (mkBlock 90 "0x99" 1580) 6 [operator0] contractKeys.

(** The two operators stored in the opposite order. *)
Definition storeSwapped : Store :=
  mkStore (Some meta100) [operator1; operator0] contractKeys.

(** A key of another module at the place of the first key of S1. *)
Definition foreignKey : Key.t :=
  Key.mk 0 0 "0xff" "0x7777" false "0x9d4af1ee19dad8857db3a45b0374c81c8a1c6320".

Definition foreignOperator : Operator.t :=
  Operator.mk 0 true "other module" "0xcc" 9 0 9 0
              "0x9d4af1ee19dad8857db3a45b0374c81c8a1c6320".

(** Scenario S4: the second key of operator 0 became used. *)
Definition operator0Used2 : Operator.t :=
  Operator.mk 0 true "first" "0xaa" 3 0 3 2 address.

Definition chainS4 : Chain :=
  chainAt (mkBlock 101 "0xAB" 1712) 8 [operator0Used2; operator1]
          [ key 0 0 "0xa0" true; key 0 1 "0xa1" true; key 0 2 "0xa2" false;
            key 1 0 "0xb0" false; key 1 1 "0xb1" false ].

(** Staking modules as the staking router lists them. *)
Definition curatedType : string := "curated-onchain-v1".

Definition curatedModule : Http.StakingRouterModule :=
  Http.mkModule curatedType address.

Definition otherModule : Http.StakingRouterModule :=
  Http.mkModule "community-onchain-v1"
                "0x9d4af1ee19dad8857db3a45b0374c81c8a1c6320".

(** A wall clock, a finalized block minted ten seconds before it and one
    minted 10000 seconds before it. *)
Definition wallClock : N := 1700000000000.

Definition freshMeta : Watchdog.ValidatorsMeta :=
  Watchdog.mkValidatorsMeta 1699999990 101 7000100.

Definition staleMeta : Watchdog.ValidatorsMeta :=
  Watchdog.mkValidatorsMeta 1699990000 100 7000000.

(** The chain of S1 with the key fetches of operator 1 rejected, and with
    the operator fetch rejected. *)
Definition chainKeysRejected : Chain :=
  {| getBlock := getBlock chainS1;
     fetchKeysOpIndex := fetchKeysOpIndex chainS1;
     operatorFetch := operatorFetch chainS1;
     keyFetch := fun operatorIndex from to h =>
                   if operatorIndex =? 1 then None
                   else keyFetch chainS1 operatorIndex from to h |}.

Definition chainOperatorsRejected : Chain :=
  {| getBlock := getBlock chainS1;
     fetchKeysOpIndex := fetchKeysOpIndex chainS1;
     operatorFetch := fun _ _ _ => None;
     keyFetch := keyFetch chainS1 |}.






End Fixture.

(* ===================================================================== *)
(** * Further statements about the reconciler *)
(* ===================================================================== *)

(** The tail deletes that [saveOperatorsAndMeta] issues, one per operator. *)
Definition deleteEvents (operators : list Operator.t) : list Event :=
  map (fun o => EvDeleteKeys (Operator.index o) (Operator.totalSigningKeys o))
      operators.

(** The world right after [saveOperatorsAndMeta] on the slow path of
    [update]: [w] is the world after the meta resolution, [s] the store
    before the call. *)
Definition committedWorld (s : Store) (currMeta : Meta.t)
           (currentOperators : list Operator.t) (w : World) : World :=
  mkWorld
    (mkStore (Some currMeta)
             (upsert operatorConflict currentOperators (operatorT s))
             (deleteTails currentOperators (keyT s)))
    (log w ++ [EvFetchOperators (Meta.blockHash currMeta)]
           ++ deleteEvents currentOperators
           ++ map EvInsertOperators (chunk currentOperators 499)
           ++ [EvDeleteMeta; EvPersistMeta currMeta]).

(** The block hash that a read of the contract is pinned to, if [e] is
    such a read. *)
Definition pinnedTo (e : Event) : option string :=
  match e with
  | EvFetchKeysOpIndex h | EvFetchOperators h | EvFetchKeys _ _ _ h => Some h
  | _ => None
  end.

(** The primary key of a key row as the upsert sees it. *)
Definition keyId (k : Key.t) : N * N := (Key.operatorIndex k, Key.index k).

(** No two stored keys share [(operatorIndex, index)] and no two stored
    operators share [index]. *)
Definition uniqueRows (s : Store) : Prop :=
  NoDup (map keyId (keyT s)) /\ NoDup (map Operator.index (operatorT s)).

(** The left-to-right upsert of the key batches fetched by a sync. *)
Definition upsertBatches (batches : list (list Key.t)) (tbl : list Key.t)
  : list Key.t :=
  fold_left (fun t batch => upsert keyConflict batch t) batches tbl.

(** What the key fetcher answers to the requests of a sync from position
    [i] on, in order. *)
Definition answersFrom {service : AbstractRegistryService} (chain : Chain)
           (previousOperators : list Operator.t) (blockHash : string)
           (i : nat) (rest : list Operator.t) : list (option (list Key.t)) :=
  map (fun ic =>
         keyFetch chain (Operator.index (snd ic))
                  (fromIndexOf (nth_error previousOperators (fst ic)) (snd ic))
                  (getToIndex (snd ic)) blockHash)
      (combine (seq i (List.length rest)) rest).

(** The batches before the first rejected fetch. *)
Fixpoint resolvedPrefix {A} (answers : list (option A)) : list A :=
  match answers with
  | Some a :: rest => a :: resolvedPrefix rest
  | _ => []
  end.

Definition allResolved {A} (answers : list (option A)) : bool :=
  forallb (fun a => match a with Some _ => true | None => false end) answers.

(** The rows that the curated service returns, once for every staking
    module of the curated type and in the order of the modules, each with
    the address of that module. *)
Definition keysPerCuratedModule (CURATED_ONCHAIN_V1_TYPE : string)
           (stakingModules : list Http.StakingRouterModule)
           (curatedKeys : list Key.t) : list Http.KeyWithModuleAddress :=
  flat_map (fun module =>
              if String.eqb (Http.type module) CURATED_ONCHAIN_V1_TYPE
              then map (fun key =>
                          Http.mkKeyWithModuleAddress
                            key (Http.stakingModuleAddress module))
                       curatedKeys
              else [])
           stakingModules.

(** A run of the watchdog in which the clock stays before [due], the
    firing time of the timer armed last, and every successful cycle leaves
    a last block timestamp that is set, not zero and less than the timeout
    behind the clock.  [now] is the clock and [last] the last block
    timestamp when [steps] start. *)
Fixpoint timely (now due : N) (last : option N) (steps : list Watchdog.Step)
  : bool :=
  match steps with
  | [] => true
  | Watchdog.Elapse ms :: rest =>
      (now + ms <? due) && timely (now + ms) due last rest
  | Watchdog.CycleSucceeded meta :: rest =>
      let last' := match meta with
                   | Some m => Some (Watchdog.timestamp m)
                   | None => last
                   end in
      match last' with
      | Some t =>
          negb (t =? 0)
          && (now <? t * 1000 + Watchdog.UPDATE_VALIDATORS_TIMEOUT_MS)
          && timely now (now + Watchdog.UPDATE_VALIDATORS_TIMEOUT_MS) last'
                    rest
      | None => false
      end
  end.

(** What holds of the timeouts of a running process: every pending handle
    was handed out by [setTimeout], and no pending timeout is due yet. *)
Definition timersAhead (p : Watchdog.Process) : Prop :=
  forall handle due,
    In (handle, due) (Watchdog.pending p) ->
    (handle < Watchdog.nextHandle p)%nat /\ Watchdog.now p < due.

(* ===================================================================== *)
(** * Running the effects *)
(* ===================================================================== *)

Ltac run_step :=
  unfold bind, ret, emit, readStore, writeStore, await, transactional; cbn.

Lemma bind_returned {A B} (m : M A) (k : A -> M B) w a w' :
  m w = (Returned a, w') -> bind m k w = k a w'.
Proof. intros H. unfold bind. now rewrite H. Qed.

Lemma bind_thrown {A B} (m : M A) (k : A -> M B) w e w' :
  m w = (Thrown e, w') -> bind m k w = (Thrown e, w').
Proof. intros H. unfold bind. now rewrite H. Qed.

Lemma transactional_returned {A} (m : M A) w a w' :
  m w = (Returned a, w') -> transactional m w = (Returned a, w').
Proof. intros H. unfold transactional. now rewrite H. Qed.

(** Resolving the meta reads the chain only. *)
Lemma getMetaDataFromContract_returned chain ref w currMeta w' :
  getMetaDataFromContract chain ref w = (Returned currMeta, w') ->
  exists block,
    getBlock chain ref = Some block
    /\ fetchKeysOpIndex chain (hash block) = Some (Meta.keysOpIndex currMeta)
    /\ currMeta = Meta.mk (number block) (hash block)
                          (Meta.keysOpIndex currMeta) (block_timestamp block)
    /\ w' = mkWorld (db w)
                    (log w ++ [EvGetBlock ref; EvFetchKeysOpIndex (hash block)]).
Proof.
  unfold getMetaDataFromContract. run_step.
  destruct (getBlock chain ref) as [block|]; [|discriminate].
  destruct (fetchKeysOpIndex chain (hash block)) as [k|] eqn:Hk;
    [|discriminate].
  cbn. intros H. inversion H; subst; clear H.
  exists block. cbn. rewrite <- app_assoc. auto.
Qed.

(** The first statements of [update], up to the two guards. *)
Lemma update_unfold {service : AbstractRegistryService} chain ref s currMeta w :
  getMetaDataFromContract chain ref (mkWorld s []) = (Returned currMeta, w) ->
  runUpdate chain ref s
  = (let prevMeta := metaT s in
     let previousBlockNumber :=
       match prevMeta with
       | Some m => Z.of_N (Meta.blockNumber m)
       | None => (-1)%Z
       end in
     if (previousBlockNumber >? Z.of_N (Meta.blockNumber currMeta))%Z
     then ret None
     else if compareMeta prevMeta (Some currMeta)
          then (transactional (nativeDeleteMeta ;; persistMeta currMeta) ;;
                ret None)
          else
            (previousOperators <- getOperatorsFromStorage ;;
             currentOperators <-
               getOperatorsFromContract chain (Meta.blockHash currMeta) ;;
             saveOperatorsAndMeta currentOperators currMeta ;;
             syncUpdatedKeysWithContract chain previousOperators
               currentOperators (Meta.blockHash currMeta) ;;
             ret (Some currMeta))) w.
Proof.
  intros H. unfold runUpdate, update.
  unfold getMetaDataFromStorage at 1.
  unfold bind at 1. unfold readStore at 1. cbn [db metaT].
  unfold bind at 1. rewrite H. reflexivity.
Qed.

(* ===================================================================== *)
(** * The stale-snapshot guard *)
(* ===================================================================== *)

(** C2.  If the stored meta is of a later block than the meta resolved from
    the chain, [update] returns without an error, the store is what it was,
    and nothing but the meta resolution was performed: no store write, no
    operator fetch, no key fetch. *)
Theorem update_stale_snapshot_is_noop
        {service : AbstractRegistryService} chain ref s prevMeta currMeta w :
  metaT s = Some prevMeta ->
  getMetaDataFromContract chain ref (mkWorld s []) = (Returned currMeta, w) ->
  Meta.blockNumber currMeta < Meta.blockNumber prevMeta ->
  runUpdate chain ref s = (Returned None, w)
  /\ db w = s
  /\ quiet (log w) = true.
Proof.
  intros Hprev Hcurr Hlt.
  rewrite (update_unfold _ _ _ _ _ Hcurr). cbn zeta. rewrite Hprev.
  destruct (getMetaDataFromContract_returned _ _ _ _ _ Hcurr)
    as (block & _ & _ & _ & ->).
  assert (Hgt : (Z.of_N (Meta.blockNumber prevMeta)
                 >? Z.of_N (Meta.blockNumber currMeta))%Z = true)
    by (apply Z.gtb_lt; lia).
  rewrite Hgt. cbn. auto.
Qed.

Lemma update_stale_snapshot_is_noop_witness :
  runUpdate (service := KeyRegistryService) Fixture.chainOlder (RefNumber 90)
            Fixture.storeS1
  = (Returned None,
     mkWorld Fixture.storeS1 [EvGetBlock (RefNumber 90); EvFetchKeysOpIndex "0x99"])
  /\ db (mkWorld Fixture.storeS1
                 [EvGetBlock (RefNumber 90); EvFetchKeysOpIndex "0x99"])
     = Fixture.storeS1
  /\ quiet [EvGetBlock (RefNumber 90); EvFetchKeysOpIndex "0x99"] = true.
Proof.
  apply (update_stale_snapshot_is_noop (service := KeyRegistryService)
           Fixture.chainOlder (RefNumber 90) Fixture.storeS1
           Fixture.meta100 (Meta.mk 90 "0x99" 6 1580)).
  - reflexivity.
  - reflexivity.
  - vm_compute. reflexivity.
Defined.

(* ===================================================================== *)
(** * The fast path *)
(* ===================================================================== *)

Lemma meta_eta (m : Meta.t) :
  Meta.mk (Meta.blockNumber m) (Meta.blockHash m) (Meta.keysOpIndex m)
          (Meta.timestamp m) = m.
Proof. now destruct m. Qed.

Lemma store_eta (s : Store) : mkStore (metaT s) (operatorT s) (keyT s) = s.
Proof. now destruct s. Qed.

Lemma compareMeta_true prevMeta currMeta :
  compareMeta (Some prevMeta) (Some currMeta) = true
  <-> Meta.keysOpIndex prevMeta = Meta.keysOpIndex currMeta
      /\ Meta.blockHash prevMeta = Meta.blockHash currMeta.
Proof.
  unfold compareMeta. rewrite andb_true_iff, N.eqb_eq, String.eqb_eq. tauto.
Qed.

(** With the same [keysOpIndex] and [blockHash] and a block that is not
    older than the stored one, [update] only replaces the meta row. *)
Lemma update_fast_path
      {service : AbstractRegistryService} chain ref s prevMeta currMeta w :
  metaT s = Some prevMeta ->
  getMetaDataFromContract chain ref (mkWorld s []) = (Returned currMeta, w) ->
  compareMeta (Some prevMeta) (Some currMeta) = true ->
  Meta.blockNumber prevMeta <= Meta.blockNumber currMeta ->
  runUpdate chain ref s
  = (Returned None,
     mkWorld (setMeta (Some currMeta) s)
             (log w ++ [EvDeleteMeta; EvPersistMeta currMeta])).
Proof.
  intros Hprev Hcurr Hsame Hle.
  rewrite (update_unfold _ _ _ _ _ Hcurr). cbn zeta. rewrite Hprev.
  destruct (getMetaDataFromContract_returned _ _ _ _ _ Hcurr)
    as (block & _ & _ & _ & ->).
  assert (Hgt : (Z.of_N (Meta.blockNumber prevMeta)
                 >? Z.of_N (Meta.blockNumber currMeta))%Z = false).
  { destruct (Z.gtb_spec (Z.of_N (Meta.blockNumber prevMeta))
                         (Z.of_N (Meta.blockNumber currMeta))); [lia | easy]. }
  rewrite Hgt, Hsame.
  unfold nativeDeleteMeta, persistMeta. run_step.
  unfold setMeta. cbn. rewrite <- ?app_assoc. reflexivity.
Qed.

(** The fast path persists the meta it resolved, with the block number and
    timestamp of the resolved block. *)
Example fast_path_persists_resolved_meta :
  let currMeta := Meta.mk 101 "0xAA" 7 1712 in
  runUpdate (service := KeyRegistryService) Fixture.chainRenumbered
            (RefString "finalized") Fixture.storeS1
  = (Returned None,
     mkWorld (setMeta (Some currMeta) Fixture.storeS1)
             [EvGetBlock (RefString "finalized"); EvFetchKeysOpIndex "0xAA";
              EvDeleteMeta; EvPersistMeta currMeta]).
Proof. reflexivity. Qed.

(* ===================================================================== *)
(** * Saving rows *)
(* ===================================================================== *)

Lemma concat_chunkFuel {A} (size : nat) :
  (0 < size)%nat ->
  forall (fuel : nat) (xs : list A),
    (List.length xs <= fuel)%nat ->
    List.concat (chunkFuel fuel size xs) = xs.
Proof.
  intros Hsize. induction fuel as [|fuel IH]; intros xs Hlen.
  - destruct xs; [reflexivity | cbn in Hlen; lia].
  - destruct xs as [|x xs]; [reflexivity|].
    cbn [chunkFuel List.concat]. rewrite IH.
    + apply firstn_skipn.
    + rewrite length_skipn. cbn [List.length] in *. lia.
Qed.

Lemma concat_chunk {A} (xs : list A) (size : nat) :
  (0 < size)%nat -> List.concat (chunk xs size) = xs.
Proof. intros H. apply concat_chunkFuel; [assumption | apply le_n]. Qed.

Lemma fold_left_concat {A B} (f : A -> B -> A) (ls : list (list B)) (a : A) :
  fold_left f (List.concat ls) a
  = fold_left (fun acc l => fold_left f l acc) ls a.
Proof.
  revert a. induction ls as [|l ls IH]; intros a; cbn; [reflexivity|].
  now rewrite fold_left_app, IH.
Qed.

Lemma forEach_insertKeys chunks w :
  forEach insertKeys chunks w
  = (Returned tt,
     mkWorld (setKeys (upsert keyConflict (List.concat chunks)) (db w))
             (log w ++ map EvInsertKeys chunks)).
Proof.
  revert w. induction chunks as [|c chunks IH]; intros w.
  - cbn. unfold ret, setKeys, upsert. cbn.
    rewrite app_nil_r, store_eta. now destruct w.
  - cbn [forEach]. unfold insertKeys at 1. run_step. rewrite IH. cbn.
    unfold setKeys, upsert. cbn. rewrite fold_left_app.
    now rewrite <- app_assoc.
Qed.

Lemma forEach_insertOperators chunks w :
  forEach insertOperators chunks w
  = (Returned tt,
     mkWorld (setOperators (upsert operatorConflict (List.concat chunks)) (db w))
             (log w ++ map EvInsertOperators chunks)).
Proof.
  revert w. induction chunks as [|c chunks IH]; intros w.
  - cbn. unfold ret, setOperators, upsert. cbn.
    rewrite app_nil_r, store_eta. now destruct w.
  - cbn [forEach]. unfold insertOperators at 1. run_step. rewrite IH. cbn.
    unfold setOperators, upsert. cbn. rewrite fold_left_app.
    now rewrite <- app_assoc.
Qed.

(** [saveKeys] upserts all of [keys], chunk after chunk, on the conflict
    target [(index, operator_index)]. *)
Lemma saveKeys_run keys w :
  saveKeys keys w
  = (Returned tt,
     mkWorld (setKeys (upsert keyConflict keys) (db w))
             (log w ++ map EvInsertKeys (chunk keys 499))).
Proof.
  unfold saveKeys.
  rewrite (transactional_returned _ _ _ _ (forEach_insertKeys _ w)).
  rewrite concat_chunk by lia. reflexivity.
Qed.

Lemma forEach_deleteKeys operators w :
  forEach (fun operator =>
             nativeDeleteKeys (Operator.index operator)
                              (Operator.totalSigningKeys operator))
          operators w
  = (Returned tt,
     mkWorld (setKeys (deleteTails operators) (db w))
             (log w ++ map (fun o => EvDeleteKeys (Operator.index o)
                                       (Operator.totalSigningKeys o))
                           operators)).
Proof.
  revert w. induction operators as [|o operators IH]; intros w.
  - cbn. unfold ret, setKeys, deleteTails. cbn.
    rewrite app_nil_r, store_eta. now destruct w.
  - cbn [forEach]. unfold nativeDeleteKeys at 1. run_step. rewrite IH. cbn.
    unfold setKeys, deleteTails. cbn. now rewrite <- app_assoc.
Qed.

(** [saveOperatorsAndMeta] in one piece: tail deletes, operator upserts on
    the conflict target [index], and the new meta row. *)
Lemma saveOperatorsAndMeta_run currentOperators currMeta w :
  saveOperatorsAndMeta currentOperators currMeta w
  = (Returned tt,
     mkWorld
       (mkStore (Some currMeta)
                (upsert operatorConflict currentOperators (operatorT (db w)))
                (deleteTails currentOperators (keyT (db w))))
       (log w
        ++ map (fun o => EvDeleteKeys (Operator.index o)
                           (Operator.totalSigningKeys o)) currentOperators
        ++ map EvInsertOperators (chunk currentOperators 499)
        ++ [EvDeleteMeta; EvPersistMeta currMeta])).
Proof.
  unfold saveOperatorsAndMeta. apply transactional_returned.
  rewrite (bind_returned _ _ _ _ _ (forEach_deleteKeys _ w)).
  rewrite (bind_returned _ _ _ _ _ (forEach_insertOperators _ _)).
  unfold nativeDeleteMeta, persistMeta. run_step.
  rewrite concat_chunk by lia.
  unfold setMeta, setOperators, setKeys. cbn.
  now rewrite <- !app_assoc.
Qed.

(* ===================================================================== *)
(** * The key sync loop: which ranges are fetched *)
(* ===================================================================== *)

Section SyncRequests.

Context {service : AbstractRegistryService}.
Variable chain : Chain.

Lemma keyFetches_app a b : keyFetches (a ++ b) = keyFetches a ++ keyFetches b.
Proof. apply filter_app. Qed.

Lemma keyFetches_insertKeys chunks : keyFetches (map EvInsertKeys chunks) = [].
Proof. induction chunks; cbn; auto. Qed.

(** The code's left border is the one of section 4.6. *)
Lemma fromIndexOf_getFromIndex prev curr :
  fromIndexOf prev curr = getFromIndex prev curr.
Proof.
  unfold fromIndexOf, getFromIndex.
  destruct prev as [p|]; cbn.
  - destruct (operatorEqb p curr).
    + rewrite N.ltb_antisym. now destruct (_ <=? _).
    + now destruct (getToIndex curr).
  - now destruct (getToIndex curr).
Qed.

Lemma fromIndexOf_le_toIndex prev curr :
  fromIndexOf prev curr <= getToIndex curr.
Proof.
  unfold fromIndexOf. cbv zeta.
  match goal with |- context [?a <=? ?b] => destruct (N.leb_spec a b) end;
    lia.
Qed.

(** One run of the loop from position [i]: the log grows by some events
    whose key fetches are the first [n] requests by position; all of
    them when the loop completes. *)
Lemma syncFrom_log previousOperators blockHash rest :
  forall i w,
  exists n events,
    log (snd (syncFrom chain previousOperators blockHash i rest w))
    = log w ++ events
    /\ keyFetches events
       = firstn n (requestsFromPosition previousOperators blockHash i rest)
    /\ (fst (syncFrom chain previousOperators blockHash i rest w)
        = Returned tt -> n = List.length rest).
Proof.
  induction rest as [|curr rest IH]; intros i w.
  - exists O, []. cbn. rewrite app_nil_r. auto.
  - cbn [syncFrom]. cbv zeta.
    set (ev := EvFetchKeys _ _ _ _).
    destruct (keyFetch chain (Operator.index curr)
                (fromIndexOf (nth_error previousOperators i) curr)
                (getToIndex curr) blockHash) as [keys|] eqn:Hfetch.
    + erewrite bind_returned by (unfold await; reflexivity).
      erewrite bind_returned by apply saveKeys_run.
      match goal with
      | |- context [syncFrom _ _ _ _ _ ?w2] =>
          destruct (IH (S i) w2) as (n & events & Hlog & Hreq & Hret)
      end.
      exists (S n), ([ev] ++ map EvInsertKeys (chunk keys 499) ++ events).
      split; [|split].
      * rewrite Hlog. cbn. now rewrite <- !app_assoc.
      * rewrite !keyFetches_app, keyFetches_insertKeys, Hreq. reflexivity.
      * intros H. now rewrite (Hret H).
    + erewrite bind_thrown by (unfold await; reflexivity).
      exists 1%nat, [ev]. cbn. split; [reflexivity|].
      split; [reflexivity | discriminate].
Qed.

End SyncRequests.

Section SyncRanges.

Context {service : AbstractRegistryService}.

Lemma in_combine_seq {A} (rest : list A) :
  forall k i (x : A),
    In (i, x) (combine (seq k (List.length rest)) rest) ->
    (k <= i)%nat /\ nth_error rest (i - k) = Some x.
Proof.
  induction rest as [|y rest IH]; intros k i x Hin; [contradiction|].
  cbn in Hin. destruct Hin as [Heq | Hin].
  - inversion Heq; subst. rewrite Nat.sub_diag. auto.
  - apply IH in Hin as [Hle Hnth]. split; [lia|].
    replace (i - k)%nat with (S (i - S k)) by lia. exact Hnth.
Qed.

Lemma requestsByPosition_asSpecified previousOperators currentOperators h :
  Forall (rangeAsSpecified previousOperators currentOperators)
         (requestsByPosition previousOperators currentOperators h).
Proof.
  apply Forall_forall. intros e Hin.
  unfold requestsByPosition, requestsFromPosition in Hin.
  apply in_map_iff in Hin as [[i curr] [Heq Hin]]. subst e.
  apply in_combine_seq in Hin as [_ Hnth]. rewrite Nat.sub_0_r in Hnth.
  cbn. split; [apply fromIndexOf_le_toIndex|].
  exists i, curr. repeat split; auto using fromIndexOf_getFromIndex.
Qed.

Lemma Forall_firstn {A} (P : A -> Prop) n (l : list A) :
  Forall P l -> Forall P (firstn n l).
Proof.
  intros H. apply Forall_forall. intros x Hx.
  rewrite Forall_forall in H. apply H.
  rewrite <- (firstn_skipn n l). apply in_or_app. now left.
Qed.

(** In a list that is dense and ascending from [k], the operator of index
    [k + i] is the one at position [i]. *)
Lemma find_index_dense (operators : list Operator.t) :
  forall k i,
    map (fun o => N.to_nat (Operator.index o)) operators
    = seq k (List.length operators) ->
    find (fun p => Operator.index p =? N.of_nat (k + i)) operators
    = nth_error operators i.
Proof.
  induction operators as [|o operators IH]; intros k i Hdense.
  - now destruct i.
  - cbn in Hdense. injection Hdense as Ho Hrest.
    cbn [find]. destruct i as [|i].
    + rewrite Nat.add_0_r, <- Ho, N2Nat.id, N.eqb_refl. reflexivity.
    + destruct (N.eqb_spec (Operator.index o) (N.of_nat (k + S i)))
        as [Heq | _].
      * rewrite Heq, Nat2N.id in Ho. lia.
      * cbn [nth_error]. rewrite <- (IH (S k) i Hrest).
        now replace (S k + i)%nat with (k + S i)%nat by lia.
Qed.

Lemma requests_dense previousOperators h rest :
  denseAscending previousOperators ->
  forall k,
    map (fun o => N.to_nat (Operator.index o)) rest
    = seq k (List.length rest) ->
    requestsFromPosition previousOperators h k rest
    = map (fun curr =>
             keyRequest h (prevByIndex previousOperators curr) curr) rest.
Proof.
  intros Hprev. induction rest as [|curr rest IH]; intros k Hdense;
    [reflexivity|].
  cbn in Hdense. injection Hdense as Hcurr Hrest.
  unfold requestsFromPosition in *. cbn. f_equal.
  - unfold prevByIndex.
    rewrite <- (find_index_dense previousOperators 0 k Hprev).
    cbn. now rewrite <- Hcurr, N2Nat.id.
  - now apply IH.
Qed.

(** C4.  The left border computed in the loop is the [getFromIndex] of
    section 4.6: [prev.usedSigningKeys] when [compareOperators(prev,
    curr)] holds and [0] otherwise, clamped to [0] when it would exceed
    [getToIndex(curr)]; it never exceeds the right border, and every key
    fetch that [syncUpdatedKeysWithContract] issues has such a range. *)
Theorem sync_from_index_clamped :
  (forall prev curr,
      fromIndexOf prev curr = getFromIndex prev curr
      /\ fromIndexOf prev curr <= getToIndex curr)
  /\ (forall chain previousOperators currentOperators blockHash s,
         Forall (rangeAsSpecified previousOperators currentOperators)
                (keyFetches
                   (log (snd (syncUpdatedKeysWithContract chain
                                previousOperators currentOperators blockHash
                                (mkWorld s [])))))).
Proof.
  split.
  - intros prev curr.
    split; [apply fromIndexOf_getFromIndex | apply fromIndexOf_le_toIndex].
  - intros chain previousOperators currentOperators blockHash s.
    unfold syncUpdatedKeysWithContract.
    destruct (syncFrom_log chain previousOperators blockHash
                currentOperators O (mkWorld s []))
      as (n & events & Hlog & Hreq & _).
    rewrite Hlog. cbn [log app]. rewrite Hreq.
    apply Forall_firstn, requestsByPosition_asSpecified.
Qed.

(** C3, as amended.  The previous operator that the loop compares [curr]
    against is the element of [previousOperators] at the position of
    [curr] in [currentOperators] (null past the end of the list): the key
    fetches of a sync are the requests by position, all of them when the
    sync completes.  When both lists are ascending by index and dense
    from 0, that element is the stored operator of index [curr.index]. *)
Theorem sync_prev_by_position
        chain previousOperators currentOperators blockHash s :
  (exists n,
      keyFetches
        (log (snd (syncUpdatedKeysWithContract chain previousOperators
                     currentOperators blockHash (mkWorld s []))))
      = firstn n (requestsByPosition previousOperators currentOperators
                                     blockHash)
      /\ (fst (syncUpdatedKeysWithContract chain previousOperators
                 currentOperators blockHash (mkWorld s []))
          = Returned tt -> n = List.length currentOperators))
  /\ (denseAscending previousOperators ->
      denseAscending currentOperators ->
      requestsByPosition previousOperators currentOperators blockHash
      = requestsByIndex previousOperators currentOperators blockHash).
Proof.
  split.
  - unfold syncUpdatedKeysWithContract.
    destruct (syncFrom_log chain previousOperators blockHash
                currentOperators O (mkWorld s []))
      as (n & events & Hlog & Hreq & Hret).
    exists n. rewrite Hlog. cbn [log app]. auto.
  - intros Hprev Hcurr. now apply requests_dense.
Qed.

End SyncRanges.

(** C3 as stated fails: with the two stored operators returned in the
    opposite order and nothing changed on the contract, the loop compares
    each operator against the other one and fetches operator 0 from index 0,
    where the lookup by operator index skips its used key. *)
Lemma sync_prev_by_index_counterexample :
  let previousOperators := operatorT Fixture.storeSwapped in
  let currentOperators := [Fixture.operator0; Fixture.operator1] in
  let result :=
    syncUpdatedKeysWithContract (service := KeyRegistryService)
      Fixture.chainS1 previousOperators currentOperators "0xAA"
      (mkWorld Fixture.storeSwapped []) in
  fst result = Returned tt
  /\ prevByIndex previousOperators Fixture.operator0 = Some Fixture.operator0
  /\ keyFetches (log (snd result))
     = [EvFetchKeys 0 0 3 "0xAA"; EvFetchKeys 1 0 2 "0xAA"]
  /\ requestsByIndex (service := KeyRegistryService)
       previousOperators currentOperators "0xAA"
     = [EvFetchKeys 0 1 3 "0xAA"; EvFetchKeys 1 0 2 "0xAA"]
  /\ keyFetches (log (snd result))
     <> requestsByIndex (service := KeyRegistryService)
          previousOperators currentOperators "0xAA".
Proof.
  cbv zeta. repeat split; try (vm_compute; reflexivity).
  vm_compute. discriminate.
Qed.

(* ===================================================================== *)
(** * Upserts and their conflict targets *)
(* ===================================================================== *)

Section Upsert.

Context {R : Type}.
Variable conflict : R -> R -> bool.

Lemma In_upsertRow_inv tbl new x :
  In x (upsertRow conflict tbl new) ->
  x = new \/ (In x tbl /\ conflict new x = false).
Proof.
  unfold upsertRow. destruct (existsb (conflict new) tbl) eqn:Hex.
  - intros Hin. apply in_map_iff in Hin as [old [Hx Hold]].
    destruct (conflict new old) eqn:Hc; [now left | right].
    subst x. auto.
  - intros Hin. apply in_app_or in Hin as [Hin | [-> | []]]; [right | now left].
    split; [assumption|].
    destruct (conflict new x) eqn:Hc; [|reflexivity].
    assert (existsb (conflict new) tbl = true)
      by (apply existsb_exists; eauto).
    congruence.
Qed.

Lemma In_upsertRow_keep tbl new x :
  In x tbl -> conflict new x = false -> In x (upsertRow conflict tbl new).
Proof.
  intros Hin Hc. unfold upsertRow.
  destruct (existsb (conflict new) tbl).
  - apply in_map_iff. exists x. now rewrite Hc.
  - apply in_or_app. now left.
Qed.

Lemma In_upsertRow_new tbl new : In new (upsertRow conflict tbl new).
Proof.
  unfold upsertRow. destruct (existsb (conflict new) tbl) eqn:Hex.
  - apply existsb_exists in Hex as [old [Hold Hc]].
    apply in_map_iff. exists old. now rewrite Hc.
  - apply in_or_app. right. now left.
Qed.

(** A stored row on the conflict target of [new] does not survive the
    upsert, unless it is [new] itself. *)
Lemma upsertRow_replaces tbl new old :
  conflict new old = true -> old <> new ->
  ~ In old (upsertRow conflict tbl new).
Proof.
  intros Hc Hne Hin.
  apply In_upsertRow_inv in Hin as [-> | [_ Hf]]; congruence.
Qed.

Lemma In_upsert_inv rows :
  forall tbl x,
    In x (upsert conflict rows tbl) -> In x rows \/ In x tbl.
Proof.
  unfold upsert. induction rows as [|r rows IH]; intros tbl x Hin; cbn in *.
  - now right.
  - apply IH in Hin as [Hin | Hin]; [auto|].
    apply In_upsertRow_inv in Hin as [-> | [Hin _]]; auto.
Qed.

(** A stored row survives an upsert whose rows either miss its conflict
    target or are equal to it. *)
Lemma In_upsert_keep rows :
  forall tbl x,
    In x tbl ->
    (forall r, In r rows -> conflict r x = true -> r = x) ->
    In x (upsert conflict rows tbl).
Proof.
  unfold upsert. induction rows as [|r rows IH]; intros tbl x Hin Hrows;
    cbn; [assumption|].
  apply IH; [|intros; apply Hrows; cbn; auto].
  destruct (conflict r x) eqn:Hc.
  - rewrite <- (Hrows r (or_introl eq_refl) Hc). apply In_upsertRow_new.
  - now apply In_upsertRow_keep.
Qed.

(** Rows that do not conflict with each other are all stored by one
    upsert. *)
Lemma In_upsert_new rows :
  forall tbl,
    ForallOrdPairs (fun a b => conflict b a = false) rows ->
    forall r, In r rows -> In r (upsert conflict rows tbl).
Proof.
  unfold upsert. induction rows as [|r0 rows IH]; intros tbl Hpairs r Hin;
    [contradiction|].
  inversion Hpairs as [|? ? Hhead Htail]; subst. cbn.
  destruct Hin as [-> | Hin]; [|now apply IH].
  apply (In_upsert_keep rows); [apply In_upsertRow_new|].
  intros r' Hr' Hc. rewrite Forall_forall in Hhead.
  rewrite (Hhead r' Hr') in Hc. discriminate.
Qed.

End Upsert.

Lemma keyConflict_true a b :
  keyConflict a b = true
  <-> Key.index a = Key.index b /\ Key.operatorIndex a = Key.operatorIndex b.
Proof. unfold keyConflict. now rewrite andb_true_iff, !N.eqb_eq. Qed.

Lemma operatorConflict_true a b :
  operatorConflict a b = true <-> Operator.index a = Operator.index b.
Proof. unfold operatorConflict. apply N.eqb_eq. Qed.

Lemma saveKeys_keys keys s :
  keyT (db (snd (saveKeys keys (mkWorld s []))))
  = upsert keyConflict keys (keyT s).
Proof. now rewrite saveKeys_run. Qed.

Lemma saveOperatorsAndMeta_operators operators currMeta s :
  operatorT (db (snd (saveOperatorsAndMeta operators currMeta (mkWorld s []))))
  = upsert operatorConflict operators (operatorT s).
Proof. now rewrite saveOperatorsAndMeta_run. Qed.

(** C7, as amended.  Key upserts resolve conflicts on [(index,
    operator_index)] and operator upserts on [index]; the module address
    is in neither target.  A stored row that agrees with an upserted row on
    the target is replaced by it, all columns merged, whatever the module
    addresses of the two; stored rows off the target of every upserted row
    stay. *)
Theorem upsert_conflict_targets :
  (forall s new old,
      In old (keyT s) ->
      Key.index old = Key.index new ->
      Key.operatorIndex old = Key.operatorIndex new ->
      In new (keyT (db (snd (saveKeys [new] (mkWorld s [])))))
      /\ (old <> new ->
          ~ In old (keyT (db (snd (saveKeys [new] (mkWorld s [])))))))
  /\ (forall s keys old,
         In old (keyT s) ->
         (forall new, In new keys ->
                      Key.index new <> Key.index old
                      \/ Key.operatorIndex new <> Key.operatorIndex old) ->
         In old (keyT (db (snd (saveKeys keys (mkWorld s []))))))
  /\ (forall s currMeta new old,
         In old (operatorT s) ->
         Operator.index old = Operator.index new ->
         let s' := db (snd (saveOperatorsAndMeta [new] currMeta
                              (mkWorld s []))) in
         In new (operatorT s') /\ (old <> new -> ~ In old (operatorT s')))
  /\ (forall s currMeta operators old,
         In old (operatorT s) ->
         (forall new, In new operators ->
                      Operator.index new <> Operator.index old) ->
         In old (operatorT (db (snd (saveOperatorsAndMeta operators currMeta
                                       (mkWorld s [])))))).
Proof.
  split; [|split; [|split]].
  - intros s new old Hold Hi Ho. rewrite saveKeys_keys. split.
    + apply In_upsertRow_new.
    + intros Hne. apply upsertRow_replaces; [|assumption].
      apply keyConflict_true. auto.
  - intros s keys old Hold Hoff. rewrite saveKeys_keys.
    apply In_upsert_keep; [assumption|].
    intros r Hr Hc. apply keyConflict_true in Hc as [Hi Ho].
    destruct (Hoff r Hr); contradiction.
  - intros s currMeta new old Hold Hi. cbv zeta.
    rewrite saveOperatorsAndMeta_operators. split.
    + apply In_upsertRow_new.
    + intros Hne. apply upsertRow_replaces; [|assumption].
      apply operatorConflict_true. auto.
  - intros s currMeta operators old Hold Hoff.
    rewrite saveOperatorsAndMeta_operators.
    apply In_upsert_keep; [assumption|].
    intros r Hr Hc. apply operatorConflict_true in Hc.
    destruct (Hoff r Hr Hc).
Qed.

(** C7 as stated fails: a key and an operator of another module, with the
    indices of stored rows, take the place of those rows. *)
Lemma upsert_other_module_counterexample :
  let stored := Fixture.key 0 0 "0xa0" true in
  let afterKeys :=
    db (snd (saveKeys [Fixture.foreignKey] (mkWorld Fixture.storeS1 []))) in
  let afterOperators :=
    db (snd (saveOperatorsAndMeta [Fixture.foreignOperator] Fixture.meta100
               (mkWorld Fixture.storeS1 []))) in
  In stored (keyT Fixture.storeS1)
  /\ Key.moduleAddress stored <> Key.moduleAddress Fixture.foreignKey
  /\ keyT afterKeys
     = [ Fixture.foreignKey; Fixture.key 0 1 "0xa1" false;
         Fixture.key 0 2 "0xa2" false; Fixture.key 1 0 "0xb0" false;
         Fixture.key 1 1 "0xb1" false ]
  /\ In Fixture.operator0 (operatorT Fixture.storeS1)
  /\ Operator.moduleAddress Fixture.operator0
     <> Operator.moduleAddress Fixture.foreignOperator
  /\ operatorT afterOperators = [Fixture.foreignOperator; Fixture.operator1].
Proof.
  cbv zeta. repeat split; try (vm_compute; auto; fail);
    vm_compute; discriminate.
Qed.

(* ===================================================================== *)
(** * What one [update] leaves in the store *)
(* ===================================================================== *)

Lemma bind_ret_snd {A B} (m : M A) (b : B) w :
  snd (bind m (fun _ => ret b) w) = snd (m w).
Proof. unfold bind, ret. now destruct (m w) as [[a|e] w']. Qed.

Lemma getMetaDataFromContract_db chain ref w :
  db (snd (getMetaDataFromContract chain ref w)) = db w.
Proof.
  unfold getMetaDataFromContract. run_step.
  destruct (getBlock chain ref) as [block|]; [|reflexivity].
  now destruct (fetchKeysOpIndex chain (hash block)).
Qed.

(** The store after one [update] is the store before (an early return or a
    failed fetch), or the store before with the new meta row (fast path),
    or what the key sync makes of the store that [saveOperatorsAndMeta]
    committed (slow path). *)
Lemma runUpdate_cases {service : AbstractRegistryService} chain ref s :
  db (snd (runUpdate chain ref s)) = s
  \/ (exists currMeta,
         db (snd (runUpdate chain ref s)) = setMeta (Some currMeta) s)
  \/ (exists currMeta currentOperators events,
         operatorFetch chain 0%Z (-1)%Z (Meta.blockHash currMeta)
         = Some currentOperators
         /\ db (snd (runUpdate chain ref s))
            = db (snd (syncUpdatedKeysWithContract chain (operatorT s)
                         currentOperators (Meta.blockHash currMeta)
                         (mkWorld
                            (mkStore (Some currMeta)
                               (upsert operatorConflict currentOperators
                                       (operatorT s))
                               (deleteTails currentOperators (keyT s)))
                            events)))).
Proof.
  destruct (getMetaDataFromContract chain ref (mkWorld s []))
    as [[currMeta|e] w] eqn:Hmeta.
  - rewrite (update_unfold _ _ _ _ _ Hmeta). cbv zeta.
    assert (Hdb : db w = s).
    { pose proof (getMetaDataFromContract_db chain ref (mkWorld s [])) as H.
      now rewrite Hmeta in H. }
    destruct (_ >? _)%Z; [left; exact Hdb|].
    destruct (compareMeta (metaT s) (Some currMeta)).
    + right; left. exists currMeta.
      unfold nativeDeleteMeta, persistMeta. run_step. now rewrite Hdb.
    + unfold getOperatorsFromStorage, getOperatorsFromContract.
      rewrite (bind_returned (readStore operatorT) _ w (operatorT (db w)) w
                 eq_refl).
      destruct (operatorFetch chain 0%Z (-1)%Z (Meta.blockHash currMeta))
        as [currentOperators|] eqn:Hfetch.
      * right; right.
        erewrite !bind_returned by (unfold await; reflexivity).
        erewrite !bind_returned by apply saveOperatorsAndMeta_run.
        rewrite bind_ret_snd. cbn [db log]. rewrite Hdb.
        eexists currMeta, currentOperators, _. split; [exact Hfetch|].
        reflexivity.
      * left.
        erewrite bind_thrown by (unfold await; reflexivity).
        exact Hdb.
  - left. unfold runUpdate, update.
    unfold getMetaDataFromStorage at 1.
    unfold bind at 1. unfold readStore at 1. cbn [db metaT].
    erewrite bind_thrown by exact Hmeta.
    pose proof (getMetaDataFromContract_db chain ref (mkWorld s [])) as H.
    now rewrite Hmeta in H.
Qed.

(** An invariant of the store that every key upsert of the loop keeps is
    kept by the whole sync, whether it completes or a fetch fails. *)
Lemma syncFrom_invariant {service : AbstractRegistryService}
      chain previousOperators blockHash (P : Store -> Prop) rest :
  forall i w,
    (forall j curr keys s,
        nth_error rest j = Some curr ->
        keyFetch chain (Operator.index curr)
                 (fromIndexOf (nth_error previousOperators (i + j)) curr)
                 (getToIndex curr) blockHash = Some keys ->
        P s -> P (setKeys (upsert keyConflict keys) s)) ->
    P (db w) ->
    P (db (snd (syncFrom chain previousOperators blockHash i rest w))).
Proof.
  induction rest as [|curr rest IH]; intros i w Hstep Hw; [exact Hw|].
  cbn [syncFrom]. cbv zeta.
  destruct (keyFetch chain (Operator.index curr)
              (fromIndexOf (nth_error previousOperators i) curr)
              (getToIndex curr) blockHash) as [keys|] eqn:Hfetch.
  - erewrite bind_returned by (unfold await; reflexivity).
    erewrite bind_returned by apply saveKeys_run.
    apply IH.
    + intros j c ks s Hnth Hks. apply (Hstep (S j) c ks s Hnth).
      now rewrite Nat.add_succ_r.
    + cbn [db]. apply (Hstep O curr keys (db w) eq_refl); [|exact Hw].
      now rewrite Nat.add_0_r.
  - erewrite bind_thrown by (unfold await; reflexivity). exact Hw.
Qed.

(* ===================================================================== *)
(** * The total bound *)
(* ===================================================================== *)

Lemma keyBounded_true operators k :
  keyBounded operators k = true
  <-> exists o, In o operators
                /\ Operator.index o = Key.operatorIndex k
                /\ Key.index k < Operator.totalSigningKeys o.
Proof.
  unfold keyBounded. rewrite existsb_exists.
  split; intros (o & Hin & H); exists o; split; auto.
  - apply andb_true_iff in H as [Hi Hlt].
    now apply N.eqb_eq in Hi; apply N.ltb_lt in Hlt.
  - destruct H as [Hi Hlt]. apply andb_true_iff.
    now apply N.eqb_eq in Hi; apply N.ltb_lt in Hlt.
Qed.

Lemma In_deleteKeysGte operatorIndex gte keys k :
  In k (deleteKeysGte operatorIndex gte keys)
  <-> In k keys
      /\ (Key.operatorIndex k = operatorIndex -> Key.index k < gte).
Proof.
  unfold deleteKeysGte. rewrite filter_In, negb_true_iff, andb_false_iff.
  rewrite N.leb_gt, N.eqb_neq. intuition lia.
Qed.

(** The keys that the tail deletes of [saveOperatorsAndMeta] leave are
    those below [totalSigningKeys] of every current operator they belong
    to. *)
Lemma In_deleteTails operators :
  forall keys k,
    In k (deleteTails operators keys)
    <-> In k keys
        /\ (forall o, In o operators ->
                      Key.operatorIndex k = Operator.index o ->
                      Key.index k < Operator.totalSigningKeys o).
Proof.
  unfold deleteTails.
  induction operators as [|o operators IH]; intros keys k; cbn.
  - intuition.
  - rewrite IH, In_deleteKeysGte. split.
    + intros [[Hin Ho] Hrest]. split; [assumption|].
      intros o' [<- | Hin']; auto.
    + intros [Hin Hall]. split; [split|]; auto.
Qed.

(** After an operator upsert, every index that was stored is still
    stored, by the old row or by the upserted row of that index. *)
Lemma upsert_operators_index rows :
  forall tbl o,
    In o tbl ->
    exists o', In o' (upsert operatorConflict rows tbl)
               /\ Operator.index o' = Operator.index o
               /\ (o' = o \/ In o' rows).
Proof.
  unfold upsert. induction rows as [|r rows IH]; intros tbl o Hin; cbn.
  - exists o. auto.
  - destruct (operatorConflict r o) eqn:Hc.
    + destruct (IH (upsertRow operatorConflict tbl r) r
                   (In_upsertRow_new _ _ _)) as (o' & Hin' & Hi & Hor).
      exists o'. apply operatorConflict_true in Hc.
      split; [assumption|]. split; [congruence|].
      right. destruct Hor as [-> | Hrows]; cbn; auto.
    + destruct (IH (upsertRow operatorConflict tbl r) o
                   (In_upsertRow_keep _ _ _ _ Hin Hc))
        as (o' & Hin' & Hi & Hor).
      exists o'. split; [assumption|]. split; [assumption|].
      destruct Hor as [-> | Hrows]; cbn; auto.
Qed.

Lemma NoDup_index_pairs operators :
  NoDup (map Operator.index operators) ->
  ForallOrdPairs (fun a b => operatorConflict b a = false) operators.
Proof.
  induction operators as [|o operators IH]; intros Hnd; [constructor|].
  inversion Hnd as [|? ? Hnotin Hnd']; subst. constructor; [|auto].
  apply Forall_forall. intros o' Hin.
  unfold operatorConflict. apply N.eqb_neq. intros Heq.
  apply Hnotin. rewrite <- Heq. now apply in_map.
Qed.

(** The committed operators and the trimmed keys satisfy the bound if the
    store did. *)
Lemma saveOperatorsAndMeta_bound operators stored keys :
  (forall k, In k keys -> keyBounded stored k = true) ->
  forall k, In k (deleteTails operators keys) ->
            keyBounded (upsert operatorConflict operators stored) k = true.
Proof.
  intros Hinv k Hk. apply In_deleteTails in Hk as [Hin Hlt].
  apply keyBounded_true.
  destruct (proj1 (keyBounded_true _ _) (Hinv k Hin)) as (o & Ho & Hi & Hb).
  destruct (upsert_operators_index operators stored o Ho)
    as (o' & Hin' & Hi' & [-> | Hnew]).
  - exists o. auto.
  - exists o'. split; [assumption|]. split; [congruence|].
    apply Hlt; [assumption | congruence].
Qed.

(** One [update] keeps the bound, whatever its outcome, when the fetchers
    behave. *)
Lemma update_keeps_total_bound {service : AbstractRegistryService}
      chain ref s :
  fetchersBehave chain ->
  totalBound s = true ->
  totalBound (db (snd (runUpdate chain ref s))) = true.
Proof.
  intros [Hops Hkeys] Hinv.
  destruct (runUpdate_cases chain ref s)
    as [-> | [(currMeta & ->) | (currMeta & currs & events & Hfetch & ->)]];
    [assumption | exact Hinv |].
  destruct (Hops _ _ _ _ Hfetch) as [Hnd Hto].
  set (committed := upsert operatorConflict currs (operatorT s)).
  unfold syncUpdatedKeysWithContract.
  apply (syncFrom_invariant chain (operatorT s) (Meta.blockHash currMeta)
           (fun st => operatorT st = committed /\ totalBound st = true)).
  - intros j curr keys st Hnth Hks [Hcommitted Hst].
    split; [exact Hcommitted|].
    unfold totalBound in *. rewrite forallb_forall in *.
    cbn [setKeys keyT operatorT]. intros k Hk.
    apply In_upsert_inv in Hk as [Hnew | Hold]; [|auto].
    rewrite Hcommitted. apply keyBounded_true. exists curr.
    apply nth_error_In in Hnth.
    pose proof (Hkeys _ _ _ _ _ Hks) as Hrange.
    rewrite Forall_forall in Hrange, Hto.
    destruct (Hrange k Hnew) as (Hop & _ & Hlt).
    specialize (Hto curr Hnth). cbv beta in Hto.
    split; [|split; [congruence | lia]].
    apply In_upsert_new; [now apply NoDup_index_pairs | assumption].
  - cbn [db operatorT]. split; [reflexivity|].
    unfold totalBound in *. rewrite forallb_forall in *. cbn [keyT operatorT].
    now apply saveOperatorsAndMeta_bound.
Qed.

Lemma updates_total_bound {service : AbstractRegistryService}
      (calls : list (Chain * BlockRef)) :
  forall s0,
    totalBound s0 = true ->
    Forall (fun call => fetchersBehave (fst call)) calls ->
    totalBound (updates calls s0) = true.
Proof.
  unfold updates.
  induction calls as [|[chain ref] calls IH]; intros s0 H0 Hcalls;
    [exact H0|].
  inversion Hcalls as [|? ? Hchain Hrest]; subst. cbn [fold_left fst snd].
  apply IH; [|assumption].
  now apply update_keeps_total_bound.
Qed.

(** C5.  Starting from a store in which every key has a stored operator
    with its [operatorIndex] and more [totalSigningKeys] than its index
    (the empty store is one), after every sequence of [update] calls
    against chains whose fetchers behave, every stored key has such a
    stored operator: on the early return and on the fast path keys and
    operators stay; on the slow path the tail deletes leave keys below
    [totalSigningKeys] of the committed operators, and the key upserts add
    keys below [getToIndex(curr)], which is at most
    [curr.totalSigningKeys]. *)
Theorem updates_keep_total_bound {service : AbstractRegistryService}
        (calls : list (Chain * BlockRef)) (s0 : Store) :
  totalBound s0 = true ->
  Forall (fun call => fetchersBehave (fst call)) calls ->
  forall k,
    In k (keyT (updates calls s0)) ->
    exists o,
      In o (operatorT (updates calls s0))
      /\ Operator.index o = Key.operatorIndex k
      /\ Key.index k < Operator.totalSigningKeys o.
Proof.
  intros H0 Hcalls k Hk.
  pose proof (updates_total_bound calls s0 H0 Hcalls) as Hbound.
  unfold totalBound in Hbound. rewrite forallb_forall in Hbound.
  now apply keyBounded_true, Hbound.
Qed.

Lemma fixture_chain_behaves block keysOpIndex operators keys :
  NoDup (map Operator.index operators) ->
  fetchersBehave (service := KeyRegistryService)
                 (Fixture.chainAt block keysOpIndex operators keys).
Proof.
  intros Hnd. split.
  - intros a b h ops Hfetch. cbn in Hfetch. injection Hfetch as <-.
    split; [assumption|]. apply Forall_forall. intros o _. cbn. lia.
  - intros operatorIndex from to h ks Hfetch. cbn in Hfetch.
    injection Hfetch as <-. apply Forall_forall. intros k Hk.
    unfold Fixture.rangeOf in Hk. apply filter_In in Hk as [_ Hk].
    apply andb_true_iff in Hk as [Hk Hlt].
    apply andb_true_iff in Hk as [Hop Hle].
    apply N.eqb_eq in Hop. apply N.leb_le in Hle. apply N.ltb_lt in Hlt.
    auto.
Qed.

Lemma updates_keep_total_bound_witness :
  exists o,
    In o (operatorT
            (updates (service := KeyRegistryService)
               [(Fixture.chainS1, RefNumber 100);
                (Fixture.chainS4, RefNumber 101)] emptyStore))
    /\ Operator.index o = Key.operatorIndex (Fixture.key 0 2 "0xa2" false)
    /\ Key.index (Fixture.key 0 2 "0xa2" false) < Operator.totalSigningKeys o.
Proof.
  apply (updates_keep_total_bound (service := KeyRegistryService)
           [(Fixture.chainS1, RefNumber 100); (Fixture.chainS4, RefNumber 101)]
           emptyStore).
  - reflexivity.
  - assert (Hchain : forall block keysOpIndex operator keys,
               Operator.index operator = 0 ->
               fetchersBehave (service := KeyRegistryService)
                 (Fixture.chainAt block keysOpIndex
                    [operator; Fixture.operator1] keys)).
    { intros block keysOpIndex operator keys Hindex.
      apply fixture_chain_behaves. cbn. rewrite Hindex.
      repeat constructor; cbn; intuition discriminate. }
    apply Forall_cons; [now apply Hchain|].
    apply Forall_cons; [now apply Hchain | apply Forall_nil].
  - vm_compute. auto 10.
Defined.

(** The bootstrap of scenario S1, computed. *)
Example bootstrap_S1 :
  updates (service := KeyRegistryService)
          [(Fixture.chainS1, RefNumber 100)] emptyStore
  = Fixture.storeS1.
Proof. vm_compute. reflexivity. Qed.

(* ===================================================================== *)
(** * The used prefix *)
(* ===================================================================== *)





(** The key sync does not touch the operator table. *)
Lemma syncFrom_operators {service : AbstractRegistryService}
      chain previousOperators blockHash rest i w :
  operatorT (db (snd (syncFrom chain previousOperators blockHash i rest w)))
  = operatorT (db w).
Proof.
  apply (syncFrom_invariant chain previousOperators blockHash
           (fun st => operatorT st = operatorT (db w))); auto.
Qed.


Lemma fixture_fetched block keysOpIndex operators contract
      operatorIndex from to h keys fetched :
  keyFetch (Fixture.chainAt block keysOpIndex operators contract)
           operatorIndex from to h = Some keys ->
  In fetched keys ->
  In fetched contract /\ Key.operatorIndex fetched = operatorIndex.
Proof.
  intros Hkeys Hin. cbn in Hkeys. injection Hkeys as <-.
  unfold Fixture.rangeOf in Hin. apply filter_In in Hin as [Hin Hrange].
  split; [assumption|].
  apply andb_true_iff in Hrange as [Hrange _].
  apply andb_true_iff in Hrange as [Hop _]. now apply N.eqb_eq.
Qed.






(** Scenario S4, computed: the slow path fetches operator 0 from index 0,
    the used key is stored as before and the second key is now used. *)
Example key_used_S4 :
  let result := runUpdate (service := KeyRegistryService) Fixture.chainS4
                          (RefString "finalized") Fixture.storeS1 in
  fst result = Returned (Some (Meta.mk 101 "0xAB" 8 1712))
  /\ keyFetches (log (snd result))
     = [EvFetchKeys 0 0 3 "0xAB"; EvFetchKeys 1 0 2 "0xAB"]
  /\ keyT (db (snd result))
     = [ Fixture.key 0 0 "0xa0" true; Fixture.key 0 1 "0xa1" true;
         Fixture.key 0 2 "0xa2" false; Fixture.key 1 0 "0xb0" false;
         Fixture.key 1 1 "0xb1" false ].
Proof. cbv zeta. repeat split; vm_compute; reflexivity. Qed.

(* ===================================================================== *)
(** * HTTP reads *)
(* ===================================================================== *)

Section KeysServiceFacts.

Variable CURATED_ONCHAIN_V1_TYPE : string.
Variable query : unit -> list Key.t * option Meta.t.

(** With a null meta the loop raises 425 at the first curated module and
    otherwise leaves the snapshot unset. *)
Lemma collectFrom_null_meta rest :
  snd (query tt) = None ->
  forall i collected,
    Http.collectFrom CURATED_ONCHAIN_V1_TYPE query i rest collected None
    = Http.Raised Http.TooEarly
    \/ exists collected',
      Http.collectFrom CURATED_ONCHAIN_V1_TYPE query i rest collected None
      = Http.Resolved (collected', None).
Proof.
  intros Hnull. induction rest as [|module rest IH]; intros i collected.
  - right. now exists collected.
  - cbn [Http.collectFrom].
    destruct (String.eqb _ _); [|apply IH].
    destruct (query tt) as [keys meta]. cbn in Hnull. subst meta. now left.
Qed.

(** Past the first module, with no row found and a stored meta, the loop
    collects nothing and keeps the snapshot. *)
Lemma collectFrom_no_rows meta rest :
  query tt = ([], Some meta) ->
  forall i collected snapshot,
    List.concat collected = [] ->
    exists collected',
      Http.collectFrom CURATED_ONCHAIN_V1_TYPE query (S i) rest collected
                       snapshot
      = Http.Resolved (collected', snapshot)
      /\ List.concat collected' = [].
Proof.
  intros Hquery. induction rest as [|module rest IH];
    intros i collected snapshot Hempty.
  - now exists collected.
  - cbn [Http.collectFrom].
    destruct (String.eqb _ _); [|now apply IH].
    rewrite Hquery. cbn [Nat.eqb map]. apply IH.
    now rewrite concat_app, Hempty.
Qed.

(** A snapshot that the loop hands back was there before or was made of a
    meta that the query returned. *)
Lemma collectFrom_snapshot rest :
  forall i collected before collected' snapshot,
    Http.collectFrom CURATED_ONCHAIN_V1_TYPE query i rest collected before
    = Http.Resolved (collected', Some snapshot) ->
    before = Some snapshot
    \/ exists meta,
      snd (query tt) = Some meta
      /\ snapshot = Http.newELBlockSnapshot meta.
Proof.
  induction rest as [|module rest IH];
    intros i collected before collected' snapshot Hloop.
  - cbn in Hloop. injection Hloop as _ ->. now left.
  - cbn [Http.collectFrom] in Hloop.
    destruct (String.eqb _ _); [|now apply IH in Hloop].
    destruct (query tt) as [keys [meta|]] eqn:Hquery; [|discriminate].
    apply IH in Hloop as [Hset | Hmeta]; [|now right].
    destruct (i =? 0)%nat; [|now left].
    right. exists meta. split; [reflexivity | congruence].
Qed.

End KeysServiceFacts.

(** C8.  For each of [get], [getByPubkey] and [getByPubkeys]: when the
    curated service answers the read with a null meta, the call raises the
    425 exception, whatever the staking modules, filters and public keys,
    and so returns no key data; and whenever the call resolves, the curated
    service answered with a meta that is not null and the response carries
    the snapshot of that meta. *)
Theorem reads_raise_too_early_on_null_meta
        CURATED_ONCHAIN_V1_TYPE stakingModules curatedService
        filters pubkey pubkeys :
  (snd (Http.getKeysWithMetaStream curatedService
          (Http.mkKeyQuery (Http.used filters) (Http.operatorIndex filters)))
   = None ->
   Http.get stakingModules curatedService filters
   = Http.Raised Http.TooEarly)
  /\ (snd (Http.getKeyWithMetaByPubkey curatedService pubkey) = None ->
      Http.getByPubkey CURATED_ONCHAIN_V1_TYPE stakingModules curatedService
                       pubkey
      = Http.Raised Http.TooEarly)
  /\ (snd (Http.getKeysWithMetaByPubkeys curatedService pubkeys) = None ->
      Http.getByPubkeys CURATED_ONCHAIN_V1_TYPE stakingModules curatedService
                        pubkeys
      = Http.Raised Http.TooEarly)
  /\ (forall r,
         Http.get stakingModules curatedService filters = Http.Resolved r ->
         exists meta,
           snd (Http.getKeysWithMetaStream curatedService
                  (Http.mkKeyQuery (Http.used filters)
                                   (Http.operatorIndex filters)))
           = Some meta
           /\ Http.streamSnapshot r = Http.newELBlockSnapshot meta)
  /\ (forall r,
         Http.getByPubkey CURATED_ONCHAIN_V1_TYPE stakingModules
                          curatedService pubkey = Http.Resolved r ->
         exists meta,
           snd (Http.getKeyWithMetaByPubkey curatedService pubkey) = Some meta
           /\ Http.elBlockSnapshot r = Http.newELBlockSnapshot meta)
  /\ (forall r,
         Http.getByPubkeys CURATED_ONCHAIN_V1_TYPE stakingModules
                           curatedService pubkeys = Http.Resolved r ->
         exists meta,
           snd (Http.getKeysWithMetaByPubkeys curatedService pubkeys)
           = Some meta
           /\ Http.elBlockSnapshot r = Http.newELBlockSnapshot meta).
Proof.
  repeat apply conj.
  - intros Hnull. unfold Http.get. destruct (_ =? _)%nat; [reflexivity|].
    destruct (Http.getKeysWithMetaStream _ _) as [keys meta].
    cbn in Hnull. now subst meta.
  - intros Hnull. unfold Http.getByPubkey.
    destruct (_ =? _)%nat; [reflexivity|].
    destruct (collectFrom_null_meta CURATED_ONCHAIN_V1_TYPE
                (fun _ => Http.getKeyWithMetaByPubkey curatedService pubkey)
                stakingModules Hnull O [])
      as [-> | [collected ->]]; reflexivity.
  - intros Hnull. unfold Http.getByPubkeys.
    destruct (_ =? _)%nat; [reflexivity|].
    destruct (collectFrom_null_meta CURATED_ONCHAIN_V1_TYPE
                (fun _ => Http.getKeysWithMetaByPubkeys curatedService pubkeys)
                stakingModules Hnull O [])
      as [-> | [collected ->]]; reflexivity.
  - intros r. unfold Http.get. destruct (_ =? _)%nat; [discriminate|].
    destruct (Http.getKeysWithMetaStream _ _) as [keys [meta|]];
      [|discriminate].
    intros Hr. injection Hr as <-. now exists meta.
  - intros r. unfold Http.getByPubkey.
    destruct (_ =? _)%nat; [discriminate|].
    destruct (Http.collectFrom _ _ _ _ _ _)
      as [[collected [snapshot|]]|e] eqn:Hloop; try discriminate.
    destruct (_ =? _)%nat; [discriminate|].
    intros Hr. injection Hr as <-.
    destruct (collectFrom_snapshot _ _ _ _ _ _ _ _ Hloop)
      as [Hnone | Hmeta]; [discriminate | exact Hmeta].
  - intros r. unfold Http.getByPubkeys.
    destruct (_ =? _)%nat; [discriminate|].
    destruct (Http.collectFrom _ _ _ _ _ _)
      as [[collected [snapshot|]]|e] eqn:Hloop; try discriminate.
    intros Hr. injection Hr as <-.
    destruct (collectFrom_snapshot _ _ _ _ _ _ _ _ Hloop)
      as [Hnone | Hmeta]; [discriminate | exact Hmeta].
Qed.

Lemma reads_raise_too_early_on_null_meta_witness :
  let service :=
    Http.curatedServiceOf (mkStore None [Fixture.operator0]
                                   Fixture.contractKeys) in
  let modules := [Fixture.curatedModule; Fixture.otherModule] in
  Http.get modules service (Http.mkKeyQuery None None)
  = Http.Raised Http.TooEarly
  /\ Http.getByPubkey Fixture.curatedType modules service "0xa0"
     = Http.Raised Http.TooEarly
  /\ Http.getByPubkeys Fixture.curatedType modules service ["0xa0"; "0xb1"]
     = Http.Raised Http.TooEarly.
Proof.
  cbv zeta.
  pose proof (reads_raise_too_early_on_null_meta Fixture.curatedType
                [Fixture.curatedModule; Fixture.otherModule]
                (Http.curatedServiceOf (mkStore None [Fixture.operator0]
                                                Fixture.contractKeys))
                (Http.mkKeyQuery None None) "0xa0" ["0xa0"; "0xb1"])
    as (Hget & Hone & Hmany & _).
  split; [|split].
  - apply Hget. reflexivity.
  - apply Hone. reflexivity.
  - apply Hmany. reflexivity.
Defined.

(** C10, as amended.  When the first staking module is of the curated
    type, the meta is not null and no stored key matches, [getByPubkey]
    raises [NotFoundException] and [getByPubkeys] resolves with an empty
    list and the snapshot of the meta. *)
Theorem pubkey_lookups_without_match
        CURATED_ONCHAIN_V1_TYPE first rest curatedService
        pubkey pubkeys meta1 meta2 :
  Http.type first = CURATED_ONCHAIN_V1_TYPE ->
  Http.getKeyWithMetaByPubkey curatedService pubkey = ([], Some meta1) ->
  Http.getKeysWithMetaByPubkeys curatedService pubkeys = ([], Some meta2) ->
  Http.getByPubkey CURATED_ONCHAIN_V1_TYPE (first :: rest) curatedService
                   pubkey
  = Http.Raised
      (Http.NotFound ("There are no keys with " ++ pubkey
                      ++ " public key in db.")%string)
  /\ Http.getByPubkeys CURATED_ONCHAIN_V1_TYPE (first :: rest) curatedService
                       pubkeys
     = Http.Resolved
         (Http.mkKeyListResponse [] (Http.newELBlockSnapshot meta2)).
Proof.
  intros Hfirst Hone Hmany. split.
  - unfold Http.getByPubkey. cbn [List.length Nat.eqb Http.collectFrom].
    rewrite Hfirst, String.eqb_refl, Hone. cbn [Nat.eqb map app].
    destruct (collectFrom_no_rows CURATED_ONCHAIN_V1_TYPE
                (fun _ => ([], Some meta1)) meta1 rest eq_refl O [[]]
                (Some (Http.newELBlockSnapshot meta1)) eq_refl)
      as (collected & -> & Hempty).
    now rewrite Hempty.
  - unfold Http.getByPubkeys. cbn [List.length Nat.eqb Http.collectFrom].
    rewrite Hfirst, String.eqb_refl, Hmany. cbn [Nat.eqb map app].
    destruct (collectFrom_no_rows CURATED_ONCHAIN_V1_TYPE
                (fun _ => ([], Some meta2)) meta2 rest eq_refl O [[]]
                (Some (Http.newELBlockSnapshot meta2)) eq_refl)
      as (collected & -> & Hempty).
    now rewrite Hempty.
Qed.

Lemma pubkey_lookups_without_match_witness :
  let service := Http.curatedServiceOf Fixture.storeS1 in
  Http.getByPubkey Fixture.curatedType
                   [Fixture.curatedModule; Fixture.otherModule] service "0xdead"
  = Http.Raised
      (Http.NotFound "There are no keys with 0xdead public key in db.")
  /\ Http.getByPubkeys Fixture.curatedType
                       [Fixture.curatedModule; Fixture.otherModule] service
                       ["0xdead"; "0xbeef"]
     = Http.Resolved
         (Http.mkKeyListResponse [] (Http.newELBlockSnapshot Fixture.meta100)).
Proof.
  cbv zeta.
  apply (pubkey_lookups_without_match Fixture.curatedType
           Fixture.curatedModule [Fixture.otherModule]
           (Http.curatedServiceOf Fixture.storeS1)
           "0xdead" ["0xdead"; "0xbeef"] Fixture.meta100 Fixture.meta100);
    reflexivity.
Defined.

(** C10 as stated fails: the list of staking modules is not empty, the
    meta is not null and no key matches, yet both lookups raise 425,
    because the first module is not of the curated type and the snapshot
    is never set. *)
Lemma pubkey_lookups_counterexample :
  let service := Http.curatedServiceOf Fixture.storeS1 in
  let modules := [Fixture.otherModule; Fixture.curatedModule] in
  modules <> []
  /\ Http.getKeyWithMetaByPubkey service "0xdead"
     = ([], Some Fixture.meta100)
  /\ Http.getKeysWithMetaByPubkeys service ["0xdead"]
     = ([], Some Fixture.meta100)
  /\ Http.getByPubkey Fixture.curatedType modules service "0xdead"
     = Http.Raised Http.TooEarly
  /\ Http.getByPubkeys Fixture.curatedType modules service ["0xdead"]
     = Http.Raised Http.TooEarly.
Proof.
  cbv zeta. repeat split; try reflexivity. discriminate.
Qed.

(* ===================================================================== *)
(** * The stall watchdog *)
(* ===================================================================== *)

Section WatchdogFacts.

Import Watchdog.

Lemma earliest_last timers handle due :
  exists first,
    earliest (timers ++ [(handle, due)]) = Some first /\ first <= due.
Proof.
  induction timers as [|t timers (first & Hfirst & Hle)].
  - exists due. split; [reflexivity | lia].
  - exists (N.min (snd t) first). split; [|lia].
    change (earliest ((t :: timers) ++ [(handle, due)]))
      with (match earliest (timers ++ [(handle, due)]) with
            | Some d => Some (N.min (snd t) d)
            | None => Some (snd t)
            end).
    now rewrite Hfirst.
Qed.

(** [checkValidatorsUpdateTimeout] always sets a timeout that is due
    [UPDATE_VALIDATORS_TIMEOUT_MS] from now, and touches neither the clock
    nor the last block number. *)
Lemma check_arms p :
  exists timers,
    pending (checkValidatorsUpdateTimeout p)
    = timers ++ [(nextHandle p, now p + UPDATE_VALIDATORS_TIMEOUT_MS)]
    /\ now (checkValidatorsUpdateTimeout p) = now p
    /\ lastBlockNumber (this (checkValidatorsUpdateTimeout p))
       = lastBlockNumber (this p)
    /\ exited (checkValidatorsUpdateTimeout p) = exited p.
Proof.
  unfold checkValidatorsUpdateTimeout.
  destruct (updateDeadlineTimer (this p)) as [handle|];
    [destruct (isUpdated p)|]; cbn; eauto.
Qed.

Lemma run_exited steps p x : exited p = Some x -> run steps p = p.
Proof.
  intros Hx. unfold run. induction steps as [|s steps IH]; [reflexivity|].
  cbn [fold_left]. unfold step at 2. now rewrite Hx.
Qed.

(** While only time passes, the process exits as soon as the earliest
    pending timeout is due. *)
Lemma run_elapse_fires steps :
  forall p due,
    exited p = None ->
    earliest (pending p) = Some due ->
    forallb isElapse steps = true ->
    steps <> [] ->
    due <= now p + elapsed steps ->
    exited (run steps p) = Some (1, outdated (lastBlockNumber (this p))).
Proof.
  induction steps as [|s steps IH]; intros p due Hrun Hdue Hsteps Hne Hle;
    [contradiction|].
  destruct s as [ms|meta]; [|discriminate]. cbn in Hsteps.
  change (elapsed (Elapse ms :: steps)) with (ms + elapsed steps) in Hle.
  unfold run. cbn [fold_left]. unfold step at 2. rewrite Hrun.
  unfold elapse. rewrite Hdue.
  destruct (N.leb_spec due (now p + ms)) as [Hfire | Hwait].
  - now erewrite (run_exited steps) by reflexivity.
  - match goal with
    | |- context [fold_left step steps ?q] => set (p' := q)
    end.
    change (lastBlockNumber (this p)) with (lastBlockNumber (this p')).
    apply (IH p' due); auto; [|cbn; lia].
    intros ->. cbn in Hle. lia.
Qed.

Lemma run_elapse_waits steps :
  forall p due,
    exited p = None ->
    earliest (pending p) = Some due ->
    forallb isElapse steps = true ->
    now p + elapsed steps < due ->
    exited (run steps p) = None.
Proof.
  induction steps as [|s steps IH]; intros p due Hrun Hdue Hsteps Hlt;
    [exact Hrun|].
  destruct s as [ms|meta]; [|discriminate]. cbn in Hsteps.
  change (elapsed (Elapse ms :: steps)) with (ms + elapsed steps) in Hlt.
  unfold run. cbn [fold_left]. unfold step at 2. rewrite Hrun.
  unfold elapse. rewrite Hdue.
  destruct (N.leb_spec due (now p + ms)) as [Hfire | Hwait]; [lia|].
  apply (IH _ due); cbn; auto. lia.
Qed.

End WatchdogFacts.

(** C9 as stated fails: a cycle succeeds one second after the timer was
    armed, with a finalized block that is 10000 seconds old; the timer
    armed at start is not cleared, and the process exits 5399 seconds
    after that success, carrying the block number of the cycle. *)
Lemma watchdog_timely_success_counterexample :
  let started := Watchdog.initialize Fixture.wallClock in
  let succeeded :=
    Watchdog.run [Watchdog.Elapse 1000;
                  Watchdog.CycleSucceeded (Some Fixture.staleMeta)] started in
  Watchdog.exited succeeded = None
  /\ Watchdog.now succeeded
     < Fixture.wallClock + Watchdog.UPDATE_VALIDATORS_TIMEOUT_MS
  /\ Watchdog.pending succeeded
     = [(0%nat, Fixture.wallClock + 5400000);
        (1%nat, Fixture.wallClock + 1000 + 5400000)]
  /\ Watchdog.elapsed [Watchdog.Elapse 5399000]
     < Watchdog.UPDATE_VALIDATORS_TIMEOUT_MS
  /\ Watchdog.exited (Watchdog.run [Watchdog.Elapse 5399000] succeeded)
     = Some (1, Watchdog.outdated (Some 100)).
Proof.
  cbv zeta. repeat split; vm_compute; reflexivity.
Qed.

(* ===================================================================== *)
(** * The statements at the fixtures *)
(* ===================================================================== *)

(** With the operators stored in ascending order, position and index
    agree. *)
Lemma sync_prev_by_position_witness :
  requestsByPosition (service := KeyRegistryService)
    (operatorT Fixture.storeS1) [Fixture.operator0Used2; Fixture.operator1]
    "0xAB"
  = requestsByIndex (service := KeyRegistryService)
      (operatorT Fixture.storeS1) [Fixture.operator0Used2; Fixture.operator1]
      "0xAB".
Proof.
  apply (proj2 (sync_prev_by_position (service := KeyRegistryService)
                  Fixture.chainS4 (operatorT Fixture.storeS1)
                  [Fixture.operator0Used2; Fixture.operator1] "0xAB"
                  Fixture.storeS1));
    reflexivity.
Defined.

(** A key of the same module that falls on a stored key replaces it. *)
Lemma upsert_conflict_targets_witness :
  let new := Fixture.key 0 1 "0xa1" true in
  let old := Fixture.key 0 1 "0xa1" false in
  In new (keyT (db (snd (saveKeys [new] (mkWorld Fixture.storeS1 [])))))
  /\ (old <> new ->
      ~ In old (keyT (db (snd (saveKeys [new]
                                 (mkWorld Fixture.storeS1 [])))))).
Proof.
  cbv zeta.
  apply (proj1 upsert_conflict_targets Fixture.storeS1
           (Fixture.key 0 1 "0xa1" true) (Fixture.key 0 1 "0xa1" false)).
  - cbn. auto.
  - reflexivity.
  - reflexivity.
Defined.

(* ===================================================================== *)
(** * Two calls with the same contract state *)
(* ===================================================================== *)

Lemma not_persisted events m :
  forallb (fun e => negb (isPersistMeta e)) events = true ->
  ~ In (EvPersistMeta m) events.
Proof.
  intros Hall Hin. rewrite forallb_forall in Hall.
  specialize (Hall _ Hin). discriminate.
Qed.

(** The key sync logs key fetches and key upserts only, and leaves the
    meta row alone. *)
Lemma syncFrom_no_persist {service : AbstractRegistryService}
      chain previousOperators blockHash rest :
  forall i w,
  exists events,
    log (snd (syncFrom chain previousOperators blockHash i rest w))
    = log w ++ events
    /\ forallb (fun e => negb (isPersistMeta e)) events = true.
Proof.
  induction rest as [|curr rest IH]; intros i w.
  - exists []. cbn. now rewrite app_nil_r.
  - cbn [syncFrom]. cbv zeta.
    set (ev := EvFetchKeys _ _ _ _).
    destruct (keyFetch chain (Operator.index curr)
                (fromIndexOf (nth_error previousOperators i) curr)
                (getToIndex curr) blockHash) as [keys|].
    + erewrite bind_returned by (unfold await; reflexivity).
      erewrite bind_returned by apply saveKeys_run.
      match goal with
      | |- context [syncFrom _ _ _ _ _ ?w2] =>
          destruct (IH (S i) w2) as (events & Hlog & Hnone)
      end.
      exists ([ev] ++ map EvInsertKeys (chunk keys 499) ++ events).
      split.
      * rewrite Hlog. cbn. now rewrite <- !app_assoc.
      * rewrite !forallb_app, Hnone, andb_true_r. cbn.
        apply forallb_forall. intros e He.
        apply in_map_iff in He as [rows [<- _]]. reflexivity.
    + erewrite bind_thrown by (unfold await; reflexivity).
      exists [ev]. split; reflexivity.
Qed.

Lemma syncFrom_meta {service : AbstractRegistryService}
      chain previousOperators blockHash rest i w :
  metaT (db (snd (syncFrom chain previousOperators blockHash i rest w)))
  = metaT (db w).
Proof.
  apply (syncFrom_invariant chain previousOperators blockHash
           (fun st => metaT st = metaT (db w))); auto.
Qed.

Lemma getMetaDataFromContract_no_persist chain ref s :
  forallb (fun e => negb (isPersistMeta e))
          (log (snd (getMetaDataFromContract chain ref (mkWorld s []))))
  = true.
Proof.
  unfold getMetaDataFromContract. run_step.
  destruct (getBlock chain ref) as [block|]; [|reflexivity].
  now destruct (fetchKeysOpIndex chain (hash block)).
Qed.

(** The meta that a call of [update] persisted is the meta row of the
    store it leaves. *)
Lemma runUpdate_persisted {service : AbstractRegistryService}
      chain ref s m :
  In (EvPersistMeta m) (log (snd (runUpdate chain ref s))) ->
  metaT (db (snd (runUpdate chain ref s))) = Some m.
Proof.
  pose proof (getMetaDataFromContract_no_persist chain ref s) as Hquiet.
  destruct (getMetaDataFromContract chain ref (mkWorld s []))
    as [[currMeta|e] w] eqn:Hmeta; cbn [snd] in Hquiet.
  - rewrite (update_unfold _ _ _ _ _ Hmeta). cbv zeta.
    destruct (_ >? _)%Z.
    { intros Hin. now apply not_persisted in Hin. }
    destruct (compareMeta (metaT s) (Some currMeta)).
    + unfold nativeDeleteMeta, persistMeta. run_step.
      rewrite <- !app_assoc. intros Hin.
      apply in_app_or in Hin as [Hin | Hin];
        [now apply not_persisted in Hin|].
      cbn in Hin. destruct Hin as [Hin | [Hin | []]];
        [discriminate | congruence].
    + unfold getOperatorsFromStorage, getOperatorsFromContract.
      rewrite (bind_returned (readStore operatorT) _ w (operatorT (db w)) w
                 eq_refl).
      destruct (operatorFetch chain 0%Z (-1)%Z (Meta.blockHash currMeta))
        as [currentOperators|].
      * erewrite !bind_returned by (unfold await; reflexivity).
        erewrite !bind_returned by apply saveOperatorsAndMeta_run.
        rewrite bind_ret_snd. unfold syncUpdatedKeysWithContract.
        rewrite syncFrom_meta. cbn [db metaT log].
        match goal with
        | |- context [syncFrom ?c ?p ?h ?i ?r ?w2] =>
            destruct (syncFrom_no_persist c p h r i w2)
              as (events & -> & Hnone)
        end.
        cbn [log]. intros Hin.
        repeat (apply in_app_or in Hin as [Hin | Hin]);
          try (now apply not_persisted in Hin);
          try (apply in_map_iff in Hin as [x [Hx _]]; discriminate);
          cbn in Hin; intuition (try discriminate; congruence).
      * erewrite bind_thrown by (unfold await; reflexivity).
        cbn [snd log]. intros Hin.
        apply in_app_or in Hin as [Hin | [Hin | []]];
          [now apply not_persisted in Hin | discriminate].
  - unfold runUpdate, update.
    unfold getMetaDataFromStorage at 1 2.
    rewrite !(bind_returned (readStore metaT) _ (mkWorld s []) (metaT s)
                (mkWorld s []) eq_refl).
    erewrite !bind_thrown by exact Hmeta.
    intros Hin. now apply not_persisted in Hin.
Qed.

(** C1.  Two consecutive calls of [update] with the same contract state:
    the first call stored [currMeta], and the second call resolves the same
    block and [keysOpIndex], that is, the same [currMeta].  Then the stored
    [prevMeta] has the [keysOpIndex] and [blockHash] of [currMeta], and the
    second call takes the fast path: besides resolving the meta it only
    deletes the meta row and persists the identical [currMeta] (no
    operator fetch, no key fetch), returns, and leaves the store as the
    first call left it. *)
Theorem update_twice_same_state {service : AbstractRegistryService}
        chain1 ref1 chain2 ref2 s0 currMeta w :
  In (EvPersistMeta currMeta) (log (snd (runUpdate chain1 ref1 s0))) ->
  getMetaDataFromContract chain2 ref2
    (mkWorld (db (snd (runUpdate chain1 ref1 s0))) [])
  = (Returned currMeta, w) ->
  compareMeta (metaT (db (snd (runUpdate chain1 ref1 s0)))) (Some currMeta)
  = true
  /\ runUpdate chain2 ref2 (db (snd (runUpdate chain1 ref1 s0)))
     = (Returned None,
        mkWorld (db (snd (runUpdate chain1 ref1 s0)))
                [EvGetBlock ref2; EvFetchKeysOpIndex (Meta.blockHash currMeta);
                 EvDeleteMeta; EvPersistMeta currMeta])
  /\ noFetch [EvGetBlock ref2; EvFetchKeysOpIndex (Meta.blockHash currMeta);
              EvDeleteMeta; EvPersistMeta currMeta] = true.
Proof.
  intros Hfirst Hsecond.
  apply runUpdate_persisted in Hfirst.
  set (s1 := db (snd (runUpdate chain1 ref1 s0))) in *.
  assert (Hsame : compareMeta (Some currMeta) (Some currMeta) = true)
    by (now apply compareMeta_true).
  split; [now rewrite Hfirst|]. split; [|reflexivity].
  rewrite (update_fast_path _ _ _ _ _ _ Hfirst Hsecond Hsame (N.le_refl _)).
  destruct (getMetaDataFromContract_returned _ _ _ _ _ Hsecond)
    as (block & _ & _ & Hmeta & ->).
  apply (f_equal Meta.blockHash) in Hmeta. cbn [Meta.blockHash] in Hmeta.
  unfold setMeta. rewrite <- Hfirst, store_eta, Hmeta. reflexivity.
Qed.

Lemma update_twice_same_state_witness :
  let s1 := db (snd (runUpdate (service := KeyRegistryService)
                       Fixture.chainS1 (RefNumber 100) emptyStore)) in
  compareMeta (metaT s1) (Some Fixture.meta100) = true
  /\ runUpdate (service := KeyRegistryService) Fixture.chainS1
               (RefString "finalized") s1
     = (Returned None,
        mkWorld s1 [EvGetBlock (RefString "finalized");
                    EvFetchKeysOpIndex (Meta.blockHash Fixture.meta100);
                    EvDeleteMeta; EvPersistMeta Fixture.meta100])
  /\ noFetch [EvGetBlock (RefString "finalized");
              EvFetchKeysOpIndex (Meta.blockHash Fixture.meta100);
              EvDeleteMeta; EvPersistMeta Fixture.meta100] = true.
Proof.
  cbv zeta.
  apply (update_twice_same_state (service := KeyRegistryService)
           Fixture.chainS1 (RefNumber 100) Fixture.chainS1
           (RefString "finalized") emptyStore Fixture.meta100
           (mkWorld Fixture.storeS1
              [EvGetBlock (RefString "finalized"); EvFetchKeysOpIndex "0xAA"])).
  - vm_compute. auto 20.
  - vm_compute. reflexivity.
Defined.

(* ===================================================================== *)
(** * The key sync as one upsert of the fetched batches *)
(* ===================================================================== *)

Section SyncRun.

Context {service : AbstractRegistryService}.
Variable chain : Chain.
Variable previousOperators : list Operator.t.
Variable blockHash : string.

Lemma setKeys_setKeys f g s : setKeys f (setKeys g s) = setKeys (fun t => f (g t)) s.
Proof. reflexivity. Qed.

Lemma answersFrom_cons i curr rest :
  answersFrom chain previousOperators blockHash i (curr :: rest)
  = keyFetch chain (Operator.index curr)
             (fromIndexOf (nth_error previousOperators i) curr)
             (getToIndex curr) blockHash
    :: answersFrom chain previousOperators blockHash (S i) rest.
Proof. reflexivity. Qed.

Lemma requestsFromPosition_cons i curr rest :
  requestsFromPosition previousOperators blockHash i (curr :: rest)
  = keyRequest blockHash (nth_error previousOperators i) curr
    :: requestsFromPosition previousOperators blockHash (S i) rest.
Proof. reflexivity. Qed.

(** The loop, in full: it upserts the batches that resolve before the
    first rejected fetch, issues the requests up to and including that
    fetch, and completes exactly when every request resolves. *)
Lemma syncFrom_run rest :
  forall i w,
    let answers := answersFrom chain previousOperators blockHash i rest in
    let result := syncFrom chain previousOperators blockHash i rest w in
    db (snd result) = setKeys (upsertBatches (resolvedPrefix answers)) (db w)
    /\ keyFetches (log (snd result))
       = keyFetches (log w)
         ++ firstn (S (List.length (resolvedPrefix answers)))
                   (requestsFromPosition previousOperators blockHash i rest)
    /\ (fst result = Returned tt <-> allResolved answers = true)
    /\ (forall e, fst result = Thrown e ->
                  exists request,
                    nth_error (requestsFromPosition previousOperators
                                 blockHash i rest)
                              (List.length (resolvedPrefix answers))
                    = Some request
                    /\ e = ChainUnavailable request).
Proof.
  induction rest as [|curr rest IH]; intros i w; cbv zeta.
  - cbn. rewrite app_nil_r. unfold setKeys, upsertBatches. cbn.
    rewrite store_eta. repeat split; auto. discriminate.
  - rewrite answersFrom_cons, requestsFromPosition_cons.
    cbn [syncFrom]. cbv zeta. unfold keyRequest.
    destruct (keyFetch chain (Operator.index curr)
                (fromIndexOf (nth_error previousOperators i) curr)
                (getToIndex curr) blockHash) as [keys|] eqn:Hfetch.
    + erewrite bind_returned by (unfold await; reflexivity).
      erewrite bind_returned by apply saveKeys_run.
      match goal with
      | |- context [syncFrom _ _ _ _ _ ?w2] =>
          destruct (IH (S i) w2) as (Hdb & Hlog & Hret & Herr)
      end.
      cbn [resolvedPrefix List.length allResolved forallb nth_error].
      split; [|split; [|split]].
      * rewrite Hdb. cbn [db]. rewrite setKeys_setKeys. reflexivity.
      * rewrite Hlog. cbn [log]. rewrite !keyFetches_app.
        rewrite keyFetches_insertKeys, app_nil_r, <- app_assoc. reflexivity.
      * exact Hret.
      * exact Herr.
    + erewrite bind_thrown by (unfold await; reflexivity).
      cbn [resolvedPrefix List.length allResolved forallb nth_error fst snd
           db log firstn].
      split; [|split; [|split]].
      * unfold setKeys, upsertBatches. cbn. now rewrite store_eta.
      * rewrite keyFetches_app. reflexivity.
      * split; discriminate.
      * intros e He. injection He as <-. eexists. split; reflexivity.
Qed.

End SyncRun.

(* ===================================================================== *)
(** * The five ways through [update] *)
(* ===================================================================== *)

Lemma bind_ret_fst {A B} (m : M A) (b : B) w :
  fst (bind m (fun _ => ret b) w)
  = match fst (m w) with
    | Returned _ => Returned b
    | Thrown e => Thrown e
    end.
Proof. unfold bind, ret. now destruct (m w) as [[a|e] w']. Qed.

(** [update], path by path: the meta resolution rejects; the stored block
    is newer; the contract state is the same; the operator fetch rejects;
    or operators and meta are committed and the keys are synced. *)
Lemma runUpdate_world {service : AbstractRegistryService} chain ref s :
  (exists e w,
      getMetaDataFromContract chain ref (mkWorld s []) = (Thrown e, w)
      /\ runUpdate chain ref s = (Thrown e, w))
  \/ exists currMeta w,
    getMetaDataFromContract chain ref (mkWorld s []) = (Returned currMeta, w)
    /\ ((exists prevMeta,
            metaT s = Some prevMeta
            /\ Meta.blockNumber currMeta < Meta.blockNumber prevMeta
            /\ runUpdate chain ref s = (Returned None, w))
        \/ ((forall prevMeta,
                metaT s = Some prevMeta ->
                Meta.blockNumber prevMeta <= Meta.blockNumber currMeta)
            /\ ((compareMeta (metaT s) (Some currMeta) = true
                 /\ runUpdate chain ref s
                    = (Returned None,
                       mkWorld (setMeta (Some currMeta) s)
                               (log w ++ [EvDeleteMeta;
                                          EvPersistMeta currMeta])))
                \/ (compareMeta (metaT s) (Some currMeta) = false
                    /\ ((operatorFetch chain 0%Z (-1)%Z
                                       (Meta.blockHash currMeta) = None
                         /\ runUpdate chain ref s
                            = (Thrown (ChainUnavailable
                                         (EvFetchOperators
                                            (Meta.blockHash currMeta))),
                               mkWorld s
                                 (log w ++ [EvFetchOperators
                                              (Meta.blockHash currMeta)])))
                        \/ exists currentOperators,
                          operatorFetch chain 0%Z (-1)%Z
                                        (Meta.blockHash currMeta)
                          = Some currentOperators
                          /\ snd (runUpdate chain ref s)
                             = snd (syncUpdatedKeysWithContract chain
                                      (operatorT s) currentOperators
                                      (Meta.blockHash currMeta)
                                      (committedWorld s currMeta
                                         currentOperators w))
                          /\ fst (runUpdate chain ref s)
                             = match
                                 fst (syncUpdatedKeysWithContract chain
                                        (operatorT s) currentOperators
                                        (Meta.blockHash currMeta)
                                        (committedWorld s currMeta
                                           currentOperators w))
                               with
                               | Returned _ => Returned (Some currMeta)
                               | Thrown e => Thrown e
                               end))))).
Proof.
  destruct (getMetaDataFromContract chain ref (mkWorld s []))
    as [[currMeta|e] w] eqn:Hmeta.
  - right. exists currMeta, w. split; [reflexivity|].
    rewrite (update_unfold _ _ _ _ _ Hmeta). cbv zeta.
    assert (Hdb : db w = s).
    { pose proof (getMetaDataFromContract_db chain ref (mkWorld s [])) as H.
      now rewrite Hmeta in H. }
    destruct (metaT s) as [prevMeta|] eqn:Hprev.
    + destruct (Z.gtb_spec (Z.of_N (Meta.blockNumber prevMeta))
                           (Z.of_N (Meta.blockNumber currMeta)))
        as [Hgt | Hle].
      { left. exists prevMeta. repeat split; auto. lia. }
      right. split; [intros p Hp; injection Hp as <-; lia|].
      destruct (compareMeta (Some prevMeta) (Some currMeta)).
      * left. split; [reflexivity|].
        unfold nativeDeleteMeta, persistMeta. run_step.
        rewrite Hdb. now rewrite <- ?app_assoc.
      * right. split; [reflexivity|].
        unfold getOperatorsFromStorage, getOperatorsFromContract.
        rewrite (bind_returned (readStore operatorT) _ w (operatorT (db w)) w
                   eq_refl).
        destruct (operatorFetch chain 0%Z (-1)%Z (Meta.blockHash currMeta))
          as [currentOperators|].
        -- right. exists currentOperators. split; [reflexivity|].
           erewrite !bind_returned by (unfold await; reflexivity).
           erewrite !bind_returned by apply saveOperatorsAndMeta_run.
           rewrite bind_ret_snd, bind_ret_fst. cbn [db log]. rewrite Hdb.
           unfold committedWorld, deleteEvents.
           rewrite <- !app_assoc. split; reflexivity.
        -- left. split; [reflexivity|].
           erewrite bind_thrown by (unfold await; reflexivity).
           now rewrite Hdb.
    + right. split; [discriminate|]. cbn [compareMeta].
      right. split; [reflexivity|].
      replace ((-1 >? Z.of_N (Meta.blockNumber currMeta))%Z) with false
        by (symmetry; rewrite Z.gtb_ltb; apply Z.ltb_ge; lia).
      unfold getOperatorsFromStorage, getOperatorsFromContract.
      rewrite (bind_returned (readStore operatorT) _ w (operatorT (db w)) w
                 eq_refl).
      destruct (operatorFetch chain 0%Z (-1)%Z (Meta.blockHash currMeta))
        as [currentOperators|].
      * right. exists currentOperators. split; [reflexivity|].
        erewrite !bind_returned by (unfold await; reflexivity).
        erewrite !bind_returned by apply saveOperatorsAndMeta_run.
        rewrite bind_ret_snd, bind_ret_fst. cbn [db log]. rewrite Hdb.
        unfold committedWorld, deleteEvents.
        rewrite <- !app_assoc. split; reflexivity.
      * left. split; [reflexivity|].
        erewrite bind_thrown by (unfold await; reflexivity).
        now rewrite Hdb.
  - left. exists e, w. split; [reflexivity|].
    unfold runUpdate, update.
    unfold getMetaDataFromStorage at 1.
    unfold bind at 1. unfold readStore at 1. cbn [db metaT].
    now erewrite bind_thrown by exact Hmeta.
Qed.

(* ===================================================================== *)
(** * More on [update] *)
(* ===================================================================== *)

Lemma getMetaDataFromContract_thrown chain ref s e w :
  getMetaDataFromContract chain ref (mkWorld s []) = (Thrown e, w) ->
  db w = s
  /\ ((getBlock chain ref = None
       /\ e = ChainUnavailable (EvGetBlock ref)
       /\ log w = [EvGetBlock ref])
      \/ exists block,
        getBlock chain ref = Some block
        /\ e = ChainUnavailable (EvFetchKeysOpIndex (hash block))
        /\ log w = [EvGetBlock ref; EvFetchKeysOpIndex (hash block)]).
Proof.
  unfold getMetaDataFromContract. run_step.
  destruct (getBlock chain ref) as [block|].
  - destruct (fetchKeysOpIndex chain (hash block)); cbn; [discriminate|].
    intros H. injection H as <- <-. split; [reflexivity|].
    right. exists block. auto.
  - intros H. injection H as <- <-. split; [reflexivity|]. left. auto.
Qed.

Lemma getMetaDataFromContract_resolved chain ref s currMeta w :
  getMetaDataFromContract chain ref (mkWorld s []) = (Returned currMeta, w) ->
  w = mkWorld s [EvGetBlock ref; EvFetchKeysOpIndex (Meta.blockHash currMeta)]
  /\ option_map hash (getBlock chain ref) = Some (Meta.blockHash currMeta).
Proof.
  intros H.
  destruct (getMetaDataFromContract_returned _ _ _ _ _ H)
    as (block & Hblock & _ & Hmeta & ->).
  apply (f_equal Meta.blockHash) in Hmeta. cbn [Meta.blockHash] in Hmeta.
  rewrite Hblock, Hmeta. split; reflexivity.
Qed.

(** The key sync touches neither the meta row nor the operator rows, and
    every event it logs is a key fetch pinned to its block hash or a key
    upsert. *)
Lemma syncFrom_events {service : AbstractRegistryService}
      chain previousOperators blockHash (Q : Event -> Prop) rest :
  (forall operatorIndex from to, Q (EvFetchKeys operatorIndex from to blockHash)) ->
  (forall rows, Q (EvInsertKeys rows)) ->
  forall i w,
  exists events,
    log (snd (syncFrom chain previousOperators blockHash i rest w))
    = log w ++ events
    /\ Forall Q events.
Proof.
  intros Hfetch Hinsert. induction rest as [|curr rest IH]; intros i w.
  - exists []. cbn. now rewrite app_nil_r.
  - cbn [syncFrom]. cbv zeta.
    set (ev := EvFetchKeys _ _ _ _).
    destruct (keyFetch chain (Operator.index curr)
                (fromIndexOf (nth_error previousOperators i) curr)
                (getToIndex curr) blockHash) as [keys|].
    + erewrite bind_returned by (unfold await; reflexivity).
      erewrite bind_returned by apply saveKeys_run.
      match goal with
      | |- context [syncFrom _ _ _ _ _ ?w2] =>
          destruct (IH (S i) w2) as (events & Hlog & Hall)
      end.
      exists ([ev] ++ map EvInsertKeys (chunk keys 499) ++ events).
      split.
      * rewrite Hlog. cbn. now rewrite <- !app_assoc.
      * apply Forall_app. split; [repeat constructor; apply Hfetch|].
        apply Forall_app. split; [|assumption].
        apply Forall_forall. intros e He.
        apply in_map_iff in He as [rows [<- _]]. apply Hinsert.
    + erewrite bind_thrown by (unfold await; reflexivity).
      exists [ev]. split; [reflexivity|]. repeat constructor. apply Hfetch.
Qed.

(** X1.  The block number of the stored meta never decreases, and a stored
    meta never disappears: after any sequence of [update] calls, whatever
    their outcomes, the store holds a meta of a block that is not older
    than the one it held before. *)
Theorem updates_meta_monotone {service : AbstractRegistryService}
        (calls : list (Chain * BlockRef)) (s0 : Store) (prevMeta : Meta.t) :
  metaT s0 = Some prevMeta ->
  exists m,
    metaT (updates calls s0) = Some m
    /\ Meta.blockNumber prevMeta <= Meta.blockNumber m.
Proof.
  unfold updates. revert s0 prevMeta.
  induction calls as [|[chain ref] calls IH]; intros s0 prevMeta Hprev.
  - exists prevMeta. split; [assumption | lia].
  - cbn [fold_left fst snd].
    assert (Hstep : exists m,
               metaT (db (snd (runUpdate chain ref s0))) = Some m
               /\ Meta.blockNumber prevMeta <= Meta.blockNumber m).
    { destruct (runUpdate_world chain ref s0)
        as [(e & w & Hmeta & ->)
           | (currMeta & w & Hmeta
              & [(p & _ & _ & ->)
                | (Hle & [(_ & ->)
                         | (_ & [(_ & ->)
                                | (currs & _ & -> & _)])])])];
        cbn [snd db].
      - destruct (getMetaDataFromContract_thrown _ _ _ _ _ Hmeta) as [-> _].
        exists prevMeta. split; [assumption | lia].
      - destruct (getMetaDataFromContract_resolved _ _ _ _ _ Hmeta) as [-> _].
        exists prevMeta. split; [assumption | lia].
      - exists currMeta. split; [reflexivity | now apply Hle].
      - exists prevMeta. split; [assumption | lia].
      - exists currMeta. split; [|now apply Hle].
        unfold syncUpdatedKeysWithContract. now rewrite syncFrom_meta. }
    destruct Hstep as (m & Hm & Hle).
    destruct (IH _ m Hm) as (m' & Hm' & Hle').
    exists m'. split; [assumption | lia].
Qed.

Lemma updates_meta_monotone_witness :
  exists m,
    metaT (updates (service := KeyRegistryService)
             [(Fixture.chainOlder, RefNumber 90);
              (Fixture.chainS4, RefString "finalized")] Fixture.storeS1)
    = Some m
    /\ Meta.blockNumber Fixture.meta100 <= Meta.blockNumber m.
Proof.
  apply (updates_meta_monotone (service := KeyRegistryService)
           [(Fixture.chainOlder, RefNumber 90);
            (Fixture.chainS4, RefString "finalized")]
           Fixture.storeS1 Fixture.meta100).
  reflexivity.
Defined.

Lemma requestsFromPosition_keyFetch {service : AbstractRegistryService}
      previousOperators blockHash i rest n request :
  nth_error (requestsFromPosition previousOperators blockHash i rest) n
  = Some request ->
  isKeyFetch request = true /\ pinnedTo request = Some blockHash.
Proof.
  intros Hnth. apply nth_error_In in Hnth.
  unfold requestsFromPosition in Hnth.
  apply in_map_iff in Hnth as [ic [<- _]]. split; reflexivity.
Qed.

Lemma committedWorld_persisted s currMeta currentOperators w :
  In (EvPersistMeta currMeta)
     (log (committedWorld s currMeta currentOperators w)).
Proof.
  unfold committedWorld. cbn [log].
  apply in_or_app. right. apply in_or_app. right.
  apply in_or_app. right. apply in_or_app. right. cbn. auto.
Qed.

(** X2.  A call of [update] that rejects either rejected before anything
    was written (the block, the keysOpIndex or the operators could not be
    read): then the store is untouched and the log holds no store write;
    or it rejected in a key fetch: then the operators and the meta of the
    new block are already committed and stay so. *)
Theorem update_rejection {service : AbstractRegistryService}
        chain ref s e :
  fst (runUpdate chain ref s) = Thrown (ChainUnavailable e) ->
  (isKeyFetch e = false
   /\ db (snd (runUpdate chain ref s)) = s
   /\ forallb (fun ev => negb (isStoreWrite ev))
              (log (snd (runUpdate chain ref s))) = true)
  \/ (isKeyFetch e = true
      /\ exists currMeta,
        metaT (db (snd (runUpdate chain ref s))) = Some currMeta
        /\ In (EvPersistMeta currMeta) (log (snd (runUpdate chain ref s)))).
Proof.
  destruct (runUpdate_world chain ref s)
    as [(e' & w & Hmeta & ->)
       | (currMeta & w & Hmeta
          & [(p & _ & _ & ->)
            | (_ & [(_ & ->)
                   | (_ & [(_ & ->)
                          | (currs & _ & -> & ->)])])])];
    cbn [fst snd db log]; try discriminate.
  - intros He. injection He as ->. left.
    destruct (getMetaDataFromContract_thrown _ _ _ _ _ Hmeta)
      as [-> [(_ & He & ->) | (block & _ & He & ->)]];
      injection He as ->; auto.
  - intros He. injection He as <-. left.
    destruct (getMetaDataFromContract_resolved _ _ _ _ _ Hmeta) as [-> _].
    auto.
  - unfold syncUpdatedKeysWithContract.
    destruct (syncFrom_run chain (operatorT s) (Meta.blockHash currMeta)
                currs O (committedWorld s currMeta currs w))
      as (_ & _ & _ & Herr).
    cbv zeta in Herr.
    destruct (fst (syncFrom _ _ _ _ _ _)) as [[]|e'] eqn:Hfst;
      [discriminate|].
    intros He. injection He as ->.
    destruct (Herr _ eq_refl) as (request & Hnth & He).
    injection He as ->. right.
    split; [apply (requestsFromPosition_keyFetch _ _ _ _ _ _ Hnth)|].
    exists currMeta. split; [now rewrite syncFrom_meta|].
    destruct (syncFrom_events chain (operatorT s) (Meta.blockHash currMeta)
                (fun _ => True) currs (fun _ _ _ => I) (fun _ => I) O
                (committedWorld s currMeta currs w))
      as (events & -> & _).
    apply in_or_app. left. apply committedWorld_persisted.
Qed.

Lemma update_rejection_witness :
  (isKeyFetch (EvFetchKeys 1 0 2 "0xAA") = false
   /\ db (snd (runUpdate (service := KeyRegistryService)
                 Fixture.chainKeysRejected (RefNumber 100) emptyStore))
      = emptyStore
   /\ forallb (fun ev => negb (isStoreWrite ev))
              (log (snd (runUpdate (service := KeyRegistryService)
                           Fixture.chainKeysRejected (RefNumber 100)
                           emptyStore))) = true)
  \/ (isKeyFetch (EvFetchKeys 1 0 2 "0xAA") = true
      /\ exists currMeta,
        metaT (db (snd (runUpdate (service := KeyRegistryService)
                          Fixture.chainKeysRejected (RefNumber 100)
                          emptyStore))) = Some currMeta
        /\ In (EvPersistMeta currMeta)
              (log (snd (runUpdate (service := KeyRegistryService)
                           Fixture.chainKeysRejected (RefNumber 100)
                           emptyStore)))).
Proof.
  apply (update_rejection (service := KeyRegistryService)
           Fixture.chainKeysRejected (RefNumber 100) emptyStore
           (EvFetchKeys 1 0 2 "0xAA")).
  vm_compute. reflexivity.
Defined.

Lemma getMetaDataFromContract_any_store chain ref s s' currMeta w :
  getMetaDataFromContract chain ref (mkWorld s []) = (Returned currMeta, w) ->
  getMetaDataFromContract chain ref (mkWorld s' [])
  = (Returned currMeta, mkWorld s' (log w)).
Proof.
  unfold getMetaDataFromContract. run_step.
  destruct (getBlock chain ref) as [block|]; [|discriminate].
  destruct (fetchKeysOpIndex chain (hash block)); cbn; [|discriminate].
  intros H. injection H as <- <-. reflexivity.
Qed.

(** X3.  A rejected key fetch is not retried by the next call: when
    [update] rejects in a key fetch, the meta of the new block is already
    stored, so a second call against the same chain and block takes the
    fast path, fetches no operators and no keys, and leaves the store,
    with the keys that were not fetched still missing, as it is. *)
Theorem rejected_sync_is_not_retried {service : AbstractRegistryService}
        chain ref s e :
  fst (runUpdate chain ref s) = Thrown (ChainUnavailable e) ->
  isKeyFetch e = true ->
  exists currMeta,
    runUpdate chain ref (db (snd (runUpdate chain ref s)))
    = (Returned None,
       mkWorld (db (snd (runUpdate chain ref s)))
               [EvGetBlock ref; EvFetchKeysOpIndex (Meta.blockHash currMeta);
                EvDeleteMeta; EvPersistMeta currMeta]).
Proof.
  destruct (runUpdate_world chain ref s)
    as [(e' & w & Hmeta & ->)
       | (currMeta & w & Hmeta
          & [(p & _ & _ & ->)
            | (_ & [(_ & ->)
                   | (_ & [(_ & ->)
                          | (currs & _ & -> & ->)])])])];
    cbn [fst snd db log]; try discriminate.
  - intros He Hkey. injection He as ->.
    destruct (getMetaDataFromContract_thrown _ _ _ _ _ Hmeta)
      as [_ [(_ & He & _) | (block & _ & He & _)]];
      injection He as ->; discriminate.
  - intros He Hkey. injection He as <-. discriminate.
  - intros _ _. exists currMeta.
    set (s1 := db (snd (syncUpdatedKeysWithContract _ _ _ _ _))).
    assert (Hstored : metaT s1 = Some currMeta).
    { unfold s1, syncUpdatedKeysWithContract. now rewrite syncFrom_meta. }
    pose proof (getMetaDataFromContract_any_store _ _ _ s1 _ _ Hmeta) as H1.
    rewrite (update_fast_path _ _ _ _ _ _ Hstored H1
               (proj2 (compareMeta_true _ _) (conj eq_refl eq_refl))
               (N.le_refl _)).
    destruct (getMetaDataFromContract_resolved _ _ _ _ _ Hmeta) as [-> _].
    unfold setMeta. now rewrite <- Hstored, store_eta.
Qed.

Lemma rejected_sync_is_not_retried_witness :
  exists currMeta,
    runUpdate (service := KeyRegistryService) Fixture.chainKeysRejected
      (RefNumber 100)
      (db (snd (runUpdate (service := KeyRegistryService)
                  Fixture.chainKeysRejected (RefNumber 100) emptyStore)))
    = (Returned None,
       mkWorld (db (snd (runUpdate (service := KeyRegistryService)
                           Fixture.chainKeysRejected (RefNumber 100)
                           emptyStore)))
               [EvGetBlock (RefNumber 100);
                EvFetchKeysOpIndex (Meta.blockHash currMeta);
                EvDeleteMeta; EvPersistMeta currMeta]).
Proof.
  apply (rejected_sync_is_not_retried (service := KeyRegistryService)
           Fixture.chainKeysRejected (RefNumber 100) emptyStore
           (EvFetchKeys 1 0 2 "0xAA")).
  - vm_compute. reflexivity.
  - reflexivity.
Defined.

(** The store that the rejected sync of the fixture leaves: both operators
    and the meta, and the keys of operator 0 only. *)
Example rejected_sync_store :
  db (snd (runUpdate (service := KeyRegistryService)
             Fixture.chainKeysRejected (RefNumber 100) emptyStore))
  = mkStore (Some Fixture.meta100) [Fixture.operator0; Fixture.operator1]
            [ Fixture.key 0 0 "0xa0" true; Fixture.key 0 1 "0xa1" false;
              Fixture.key 0 2 "0xa2" false ].
Proof. vm_compute. reflexivity. Qed.

Lemma pinned_in_committed s currMeta currentOperators ref e h :
  In e (log (committedWorld s currMeta currentOperators
               (mkWorld s [EvGetBlock ref;
                           EvFetchKeysOpIndex (Meta.blockHash currMeta)]))) ->
  pinnedTo e = Some h ->
  h = Meta.blockHash currMeta.
Proof.
  unfold committedWorld, deleteEvents. cbn [log]. intros Hin Hpin.
  repeat (apply in_app_or in Hin as [Hin | Hin]);
    try (apply in_map_iff in Hin as [x [<- _]]; discriminate);
    cbn in Hin;
    repeat match goal with
           | H : _ \/ _ |- _ => destruct H
           | H : False |- _ => destruct H
           end;
    subst; cbn in Hpin; congruence.
Qed.

Lemma pinned_fetch operatorIndex from to h h' :
  pinnedTo (EvFetchKeys operatorIndex from to h) = Some h' -> h' = h.
Proof. cbn. congruence. Qed.

Lemma pinned_insert rows h h' :
  pinnedTo (EvInsertKeys rows) = Some h' -> h' = h.
Proof. discriminate. Qed.

Ltac split_events :=
  repeat match goal with
         | H : _ \/ _ |- _ => destruct H
         | H : False |- _ => destruct H
         end.

(** X4.  All reads of the contract in one [update] are pinned to the hash
    of the block that the call resolved first: the keysOpIndex read, the
    operator fetch and every key fetch in the log carry that hash. *)
Theorem update_reads_are_pinned {service : AbstractRegistryService}
        chain ref s e h :
  In e (log (snd (runUpdate chain ref s))) ->
  pinnedTo e = Some h ->
  option_map hash (getBlock chain ref) = Some h.
Proof.
  destruct (runUpdate_world chain ref s)
    as [(e' & w & Hmeta & ->)
       | (currMeta & w & Hmeta
          & [(p & _ & _ & ->)
            | (_ & [(_ & ->)
                   | (_ & [(_ & ->)
                          | (currs & _ & -> & _)])])])];
    cbn [fst snd db log].
  - destruct (getMetaDataFromContract_thrown _ _ _ _ _ Hmeta)
      as [_ [(_ & _ & ->) | (block & Hblock & _ & ->)]];
      cbn; intros Hin Hpin; split_events;
      subst; cbn in Hpin; try discriminate.
    rewrite Hblock. cbn. congruence.
  - destruct (getMetaDataFromContract_resolved _ _ _ _ _ Hmeta)
      as [-> Hhash].
    cbn; intros Hin Hpin; split_events;
      subst; cbn in Hpin; try discriminate; congruence.
  - destruct (getMetaDataFromContract_resolved _ _ _ _ _ Hmeta)
      as [-> Hhash].
    cbn; intros Hin Hpin; split_events;
      subst; cbn in Hpin; try discriminate; congruence.
  - destruct (getMetaDataFromContract_resolved _ _ _ _ _ Hmeta)
      as [-> Hhash].
    cbn; intros Hin Hpin; split_events;
      subst; cbn in Hpin; try discriminate; congruence.
  - destruct (getMetaDataFromContract_resolved _ _ _ _ _ Hmeta)
      as [-> Hhash].
    unfold syncUpdatedKeysWithContract.
    destruct (syncFrom_events chain (operatorT s) (Meta.blockHash currMeta)
                (fun ev => forall h', pinnedTo ev = Some h' ->
                                      h' = Meta.blockHash currMeta)
                currs
                (fun operatorIndex from to h' =>
                   pinned_fetch operatorIndex from to _ h')
                (fun rows h' => pinned_insert rows _ h')
                O
                (committedWorld s currMeta currs
                   (mkWorld s [EvGetBlock ref;
                               EvFetchKeysOpIndex (Meta.blockHash currMeta)])))
      as (events & -> & Hall).
    intros Hin Hpin. rewrite Hhash. f_equal. symmetry.
    apply in_app_or in Hin as [Hin | Hin].
    + apply (pinned_in_committed _ _ _ _ _ _ Hin Hpin).
    + rewrite Forall_forall in Hall. now apply (Hall e).
Qed.

Lemma update_reads_are_pinned_witness :
  option_map hash (getBlock Fixture.chainS1 (RefNumber 100)) = Some "0xAA".
Proof.
  apply (update_reads_are_pinned (service := KeyRegistryService)
           Fixture.chainS1 (RefNumber 100) emptyStore
           (EvFetchKeys 1 0 2 "0xAA") "0xAA").
  - vm_compute. auto 20.
  - reflexivity.
Defined.

Lemma keyFetches_committed s currMeta currentOperators ref :
  keyFetches
    (log (committedWorld s currMeta currentOperators
            (mkWorld s [EvGetBlock ref;
                        EvFetchKeysOpIndex (Meta.blockHash currMeta)])))
  = [].
Proof.
  unfold committedWorld, deleteEvents. cbn [log].
  rewrite !keyFetches_app. cbn.
  assert (H1 : forall l : list Operator.t,
             keyFetches
               (map (fun o => EvDeleteKeys (Operator.index o)
                                           (Operator.totalSigningKeys o)) l)
             = [])
    by (induction l; cbn; auto).
  assert (H2 : forall l : list (list Operator.t),
             keyFetches (map EvInsertOperators l) = [])
    by (induction l; cbn; auto).
  now rewrite H1, H2.
Qed.

Lemma resolvedPrefix_all {A} (answers : list (option A)) :
  allResolved answers = true ->
  List.length (resolvedPrefix answers) = List.length answers.
Proof.
  induction answers as [|[a|] answers IH]; cbn;
    [reflexivity | | discriminate].
  intros H. now rewrite IH.
Qed.

Lemma answersFrom_length {service : AbstractRegistryService}
      chain previousOperators blockHash i rest :
  List.length (answersFrom chain previousOperators blockHash i rest)
  = List.length rest.
Proof.
  unfold answersFrom.
  now rewrite length_map, length_combine, length_seq, Nat.min_id.
Qed.

Lemma requestsFromPosition_length {service : AbstractRegistryService}
      previousOperators blockHash i rest :
  List.length (requestsFromPosition previousOperators blockHash i rest)
  = List.length rest.
Proof.
  unfold requestsFromPosition.
  now rewrite length_map, length_combine, length_seq, Nat.min_id.
Qed.

(** X5.  When [update] resolves to a meta, it went through the whole slow
    path: the operators were fetched, every key request by position
    resolved and was issued once, in order, and the store it leaves is made
    of the resolved meta, the stored operators with the fetched ones
    upserted, and the stored keys with the tails deleted and then all
    fetched batches upserted, operator after operator. *)
Theorem update_resolved_to_meta {service : AbstractRegistryService}
        chain ref s m :
  fst (runUpdate chain ref s) = Returned (Some m) ->
  exists currentOperators,
    operatorFetch chain 0%Z (-1)%Z (Meta.blockHash m) = Some currentOperators
    /\ allResolved (answersFrom chain (operatorT s) (Meta.blockHash m) O
                                currentOperators) = true
    /\ db (snd (runUpdate chain ref s))
       = mkStore (Some m)
           (upsert operatorConflict currentOperators (operatorT s))
           (upsertBatches
              (resolvedPrefix
                 (answersFrom chain (operatorT s) (Meta.blockHash m) O
                              currentOperators))
              (deleteTails currentOperators (keyT s)))
    /\ keyFetches (log (snd (runUpdate chain ref s)))
       = requestsByPosition (operatorT s) currentOperators (Meta.blockHash m).
Proof.
  destruct (runUpdate_world chain ref s)
    as [(e' & w & Hmeta & ->)
       | (currMeta & w & Hmeta
          & [(p & _ & _ & ->)
            | (_ & [(_ & ->)
                   | (_ & [(_ & ->)
                          | (currs & Hfetch & -> & ->)])])])];
    cbn [fst snd db log]; try discriminate.
  unfold syncUpdatedKeysWithContract.
  destruct (getMetaDataFromContract_resolved _ _ _ _ _ Hmeta) as [-> _].
  destruct (syncFrom_run chain (operatorT s) (Meta.blockHash currMeta)
              currs O
              (committedWorld s currMeta currs
                 (mkWorld s [EvGetBlock ref;
                             EvFetchKeysOpIndex (Meta.blockHash currMeta)])))
    as (Hdb & Hlog & Hret & _).
  cbv zeta in *.
  destruct (fst (syncFrom _ _ _ _ _ _)) as [[]|e'] eqn:Hfst; [|discriminate].
  intros Hm. injection Hm as <-.
  pose proof (proj1 Hret eq_refl) as Hall.
  exists currs. split; [assumption|]. split; [assumption|]. split.
  - rewrite Hdb. reflexivity.
  - rewrite Hlog, keyFetches_committed. cbn [app].
    rewrite (resolvedPrefix_all _ Hall), answersFrom_length.
    unfold requestsByPosition. apply firstn_all2.
    rewrite requestsFromPosition_length. lia.
Qed.

Lemma update_resolved_to_meta_witness :
  exists currentOperators,
    operatorFetch Fixture.chainS4 0%Z (-1)%Z
                  (Meta.blockHash (Meta.mk 101 "0xAB" 8 1712))
    = Some currentOperators
    /\ allResolved
         (answersFrom (service := KeyRegistryService) Fixture.chainS4
            (operatorT Fixture.storeS1)
            (Meta.blockHash (Meta.mk 101 "0xAB" 8 1712)) O currentOperators)
       = true
    /\ db (snd (runUpdate (service := KeyRegistryService) Fixture.chainS4
                  (RefString "finalized") Fixture.storeS1))
       = mkStore (Some (Meta.mk 101 "0xAB" 8 1712))
           (upsert operatorConflict currentOperators
                   (operatorT Fixture.storeS1))
           (upsertBatches
              (resolvedPrefix
                 (answersFrom (service := KeyRegistryService) Fixture.chainS4
                    (operatorT Fixture.storeS1)
                    (Meta.blockHash (Meta.mk 101 "0xAB" 8 1712)) O
                    currentOperators))
              (deleteTails currentOperators (keyT Fixture.storeS1)))
    /\ keyFetches
         (log (snd (runUpdate (service := KeyRegistryService) Fixture.chainS4
                      (RefString "finalized") Fixture.storeS1)))
       = requestsByPosition (service := KeyRegistryService)
           (operatorT Fixture.storeS1) currentOperators
           (Meta.blockHash (Meta.mk 101 "0xAB" 8 1712)).
Proof.
  apply (update_resolved_to_meta (service := KeyRegistryService)
           Fixture.chainS4 (RefString "finalized") Fixture.storeS1
           (Meta.mk 101 "0xAB" 8 1712)).
  vm_compute. reflexivity.
Defined.

(** X6.  When [update] resolves to [undefined] (the stored block is newer,
    or the contract state is the same), no operator row and no key row was
    touched, and neither operators nor keys were fetched. *)
Theorem update_resolved_to_undefined {service : AbstractRegistryService}
        chain ref s :
  fst (runUpdate chain ref s) = Returned None ->
  operatorT (db (snd (runUpdate chain ref s))) = operatorT s
  /\ keyT (db (snd (runUpdate chain ref s))) = keyT s
  /\ noFetch (log (snd (runUpdate chain ref s))) = true.
Proof.
  destruct (runUpdate_world chain ref s)
    as [(e' & w & Hmeta & ->)
       | (currMeta & w & Hmeta
          & [(p & _ & _ & ->)
            | (_ & [(_ & ->)
                   | (_ & [(_ & ->)
                          | (currs & Hfetch & _ & ->)])])])];
    cbn [fst snd db log]; try discriminate.
  - destruct (getMetaDataFromContract_resolved _ _ _ _ _ Hmeta) as [-> _].
    auto.
  - destruct (getMetaDataFromContract_resolved _ _ _ _ _ Hmeta) as [-> _].
    auto.
  - destruct (fst (syncUpdatedKeysWithContract _ _ _ _ _)); discriminate.
Qed.

Lemma update_resolved_to_undefined_witness :
  operatorT (db (snd (runUpdate (service := KeyRegistryService)
                        Fixture.chainOlder (RefNumber 90) Fixture.storeS1)))
  = operatorT Fixture.storeS1
  /\ keyT (db (snd (runUpdate (service := KeyRegistryService)
                      Fixture.chainOlder (RefNumber 90) Fixture.storeS1)))
     = keyT Fixture.storeS1
  /\ noFetch (log (snd (runUpdate (service := KeyRegistryService)
                         Fixture.chainOlder (RefNumber 90) Fixture.storeS1)))
     = true.
Proof.
  apply (update_resolved_to_undefined (service := KeyRegistryService)
           Fixture.chainOlder (RefNumber 90) Fixture.storeS1).
  reflexivity.
Defined.

(* ===================================================================== *)
(** * What the store keeps *)
(* ===================================================================== *)

(** X7.  [update] never removes an operator: whatever the calls and their
    outcomes, an operator index that is stored stays stored, also when the
    contract no longer lists it. *)
Theorem updates_keep_operator_indices {service : AbstractRegistryService}
        (calls : list (Chain * BlockRef)) (s0 : Store) (o : Operator.t) :
  In o (operatorT s0) ->
  exists o',
    In o' (operatorT (updates calls s0))
    /\ Operator.index o' = Operator.index o.
Proof.
  unfold updates. revert s0 o.
  induction calls as [|[chain ref] calls IH]; intros s0 o Ho.
  - exists o. auto.
  - cbn [fold_left fst snd].
    assert (Hstep : exists o',
               In o' (operatorT (db (snd (runUpdate chain ref s0))))
               /\ Operator.index o' = Operator.index o).
    { destruct (runUpdate_cases chain ref s0)
        as [-> | [(currMeta & ->)
                 | (currMeta & currs & events & _ & ->)]].
      - exists o. auto.
      - exists o. auto.
      - unfold syncUpdatedKeysWithContract. rewrite syncFrom_operators.
        cbn [db operatorT].
        destruct (upsert_operators_index currs (operatorT s0) o Ho)
          as (o' & Hin & Hi & _).
        exists o'. auto. }
    destruct Hstep as (o1 & Ho1 & Hi1).
    destruct (IH _ o1 Ho1) as (o' & Ho' & Hi').
    exists o'. split; [assumption | congruence].
Qed.

Lemma updates_keep_operator_indices_witness :
  exists o',
    In o' (operatorT
             (updates (service := KeyRegistryService)
                [(Fixture.chainOlder, RefNumber 90)]
                (mkStore None [Fixture.operator0; Fixture.operator1] [])))
    /\ Operator.index o' = Operator.index Fixture.operator1.
Proof.
  apply (updates_keep_operator_indices (service := KeyRegistryService)
           [(Fixture.chainOlder, RefNumber 90)]
           (mkStore None [Fixture.operator0; Fixture.operator1] [])
           Fixture.operator1).
  cbn. auto.
Defined.



(* ===================================================================== *)
(** * Primary keys *)
(* ===================================================================== *)

Section UpsertUnique.

Context {R I : Type}.
Variable conflict : R -> R -> bool.
Variable id : R -> I.
Hypothesis conflict_id : forall a b, conflict a b = true <-> id a = id b.

Lemma upsertRow_unique tbl row :
  NoDup (map id tbl) -> NoDup (map id (upsertRow conflict tbl row)).
Proof.
  intros Hnd. unfold upsertRow.
  destruct (existsb (conflict row) tbl) eqn:Hex.
  - rewrite map_map.
    replace (map (fun old => id (if conflict row old then row else old)) tbl)
      with (map id tbl); [assumption|].
    apply map_ext. intros old.
    destruct (conflict row old) eqn:Hc; [|reflexivity].
    symmetry. now apply conflict_id.
  - rewrite map_app. apply NoDup_app; [assumption | |].
    + cbn. constructor; [intros [] | constructor].
    + intros a Ha [<- | []].
      apply in_map_iff in Ha as (old & Hid & Hold).
      assert (existsb (conflict row) tbl = true).
      { apply existsb_exists. exists old. split; [assumption|].
        now apply conflict_id. }
      congruence.
Qed.

Lemma upsert_unique rows :
  forall tbl,
    NoDup (map id tbl) -> NoDup (map id (upsert conflict rows tbl)).
Proof.
  unfold upsert. induction rows as [|r rows IH]; intros tbl Hnd; cbn;
    [assumption|].
  apply IH. now apply upsertRow_unique.
Qed.

Lemma filter_unique (p : R -> bool) tbl :
  NoDup (map id tbl) -> NoDup (map id (filter p tbl)).
Proof.
  induction tbl as [|r tbl IH]; cbn; intros Hnd; [constructor|].
  inversion Hnd as [|? ? Hnot Hrest]; subst.
  destruct (p r); [|now apply IH].
  cbn. constructor; [|now apply IH].
  intros Hin. apply Hnot.
  apply in_map_iff in Hin as (x & Hx & Hin).
  apply in_map_iff. exists x. split; [assumption|].
  now apply filter_In in Hin as [Hin _].
Qed.

End UpsertUnique.

Lemma keyConflict_keyId a b : keyConflict a b = true <-> keyId a = keyId b.
Proof.
  rewrite keyConflict_true. unfold keyId.
  split; [intros [-> ->]; reflexivity | intros H; now inversion H].
Qed.

Lemma deleteTails_unique operators :
  forall keys,
    NoDup (map keyId keys) -> NoDup (map keyId (deleteTails operators keys)).
Proof.
  unfold deleteTails.
  induction operators as [|o operators IH]; intros keys Hnd; cbn;
    [assumption|].
  apply IH. unfold deleteKeysGte. now apply filter_unique.
Qed.

Lemma runUpdate_unique {service : AbstractRegistryService} chain ref s :
  uniqueRows s -> uniqueRows (db (snd (runUpdate chain ref s))).
Proof.
  intros [Hkeys Hops].
  destruct (runUpdate_cases chain ref s)
    as [-> | [(currMeta & ->) | (currMeta & currs & events & _ & ->)]];
    [now split | now split |].
  unfold syncUpdatedKeysWithContract.
  apply (syncFrom_invariant chain (operatorT s) (Meta.blockHash currMeta)
           uniqueRows).
  - intros j curr keys st _ _ [Hk Ho]. split; [|exact Ho].
    cbn [setKeys keyT].
    apply (upsert_unique keyConflict keyId keyConflict_keyId); exact Hk.
  - split; cbn [db keyT operatorT].
    + now apply deleteTails_unique.
    + apply (upsert_unique operatorConflict Operator.index
               operatorConflict_true); exact Hops.
Qed.

(** X9.  The primary keys stay unique: when no two stored keys share
    [(operatorIndex, index)] and no two stored operators share [index],
    the same holds after any sequence of [update] calls, whatever the
    contract returns and however each call ends. *)
Theorem updates_keep_rows_unique {service : AbstractRegistryService}
        (calls : list (Chain * BlockRef)) (s0 : Store) :
  uniqueRows s0 -> uniqueRows (updates calls s0).
Proof.
  unfold updates. revert s0.
  induction calls as [|[chain ref] calls IH]; intros s0 H0; cbn [fold_left];
    [assumption|].
  apply IH. cbn [fst snd]. now apply runUpdate_unique.
Qed.

Lemma updates_keep_rows_unique_witness :
  uniqueRows (updates (service := KeyRegistryService)
                [(Fixture.chainS1, RefString "finalized");
                 (Fixture.chainKeysRejected, RefString "finalized")]
                emptyStore).
Proof.
  apply (updates_keep_rows_unique (service := KeyRegistryService)
           [(Fixture.chainS1, RefString "finalized");
            (Fixture.chainKeysRejected, RefString "finalized")]
           emptyStore).
  split; constructor.
Defined.

(* ===================================================================== *)
(** * What a resolved update stores *)
(* ===================================================================== *)

Lemma In_upsertBatches_keep batches :
  forall tbl k,
    In k tbl ->
    (forall batch r,
        In batch batches -> In r batch -> keyConflict r k = true -> r = k) ->
    In k (upsertBatches batches tbl).
Proof.
  unfold upsertBatches.
  induction batches as [|b batches IH]; intros tbl k Hin Hrows; cbn;
    [assumption|].
  apply IH.
  - apply In_upsert_keep; [assumption|].
    intros r Hr. apply (Hrows b r); cbn; auto.
  - intros batch r Hb. apply Hrows. cbn. auto.
Qed.

Lemma unique_no_conflict (keys : list Key.t) :
  NoDup (map keyId keys) ->
  ForallOrdPairs (fun a b => keyConflict b a = false) keys.
Proof.
  induction keys as [|k keys IH]; cbn; intros Hnd; [constructor|].
  inversion Hnd as [|? ? Hnot Hrest]; subst.
  constructor; [|now apply IH].
  apply Forall_forall. intros r Hr.
  destruct (keyConflict r k) eqn:Hc; [|reflexivity].
  exfalso. apply Hnot. apply keyConflict_keyId in Hc. rewrite <- Hc.
  now apply in_map.
Qed.

Lemma In_upsertBatches_new batches :
  forall tbl j batch k,
    nth_error batches j = Some batch ->
    In k batch ->
    NoDup (map keyId batch) ->
    (forall j' batch' r,
        (j < j')%nat -> nth_error batches j' = Some batch' ->
        In r batch' -> keyConflict r k = false) ->
    In k (upsertBatches batches tbl).
Proof.
  induction batches as [|b batches IH]; intros tbl j batch k Hnth Hin Hnd Hlater;
    [destruct j; discriminate|].
  destruct j as [|j]; cbn in Hnth.
  - injection Hnth as ->.
    change (upsertBatches (batch :: batches) tbl)
      with (upsertBatches batches (upsert keyConflict batch tbl)).
    apply In_upsertBatches_keep.
    + apply In_upsert_new; [now apply unique_no_conflict | assumption].
    + intros batch' r Hb Hr Hc.
      apply In_nth_error in Hb as [j' Hj'].
      rewrite (Hlater (S j') batch' r) in Hc;
        [discriminate | lia | exact Hj' | exact Hr].
  - change (upsertBatches (b :: batches) tbl)
      with (upsertBatches batches (upsert keyConflict b tbl)).
    apply (IH _ j batch k Hnth Hin Hnd).
    intros j' batch' r Hlt Hj'. apply (Hlater (S j') batch' r); [lia|exact Hj'].
Qed.

Lemma nth_error_resolvedPrefix {A} (answers : list (option A)) :
  allResolved answers = true ->
  forall j a,
    nth_error (resolvedPrefix answers) j = Some a
    <-> nth_error answers j = Some (Some a).
Proof.
  induction answers as [|[x|] answers IH]; cbn; intros Hall j a.
  - destruct j; split; discriminate.
  - destruct j as [|j]; cbn.
    + split; intros H; now inversion H.
    + now apply IH.
  - discriminate.
Qed.

Lemma nth_error_answersFrom {service : AbstractRegistryService}
      chain previousOperators blockHash rest :
  forall i j,
    nth_error (answersFrom chain previousOperators blockHash i rest) j
    = option_map
        (fun curr =>
           keyFetch chain (Operator.index curr)
                    (fromIndexOf (nth_error previousOperators (i + j)) curr)
                    (getToIndex curr) blockHash)
        (nth_error rest j).
Proof.
  induction rest as [|curr rest IH]; intros i j.
  - destruct j; reflexivity.
  - rewrite answersFrom_cons. destruct j as [|j]; cbn [nth_error option_map].
    + now rewrite Nat.add_0_r.
    + rewrite IH. now rewrite Nat.add_succ_r.
Qed.

(** The store that a call resolving to a meta leaves. *)
Lemma resolved_update_store {service : AbstractRegistryService}
      chain ref s m :
  fst (runUpdate chain ref s) = Returned (Some m) ->
  exists currentOperators,
    operatorFetch chain 0%Z (-1)%Z (Meta.blockHash m) = Some currentOperators
    /\ allResolved (answersFrom chain (operatorT s) (Meta.blockHash m) O
                                currentOperators) = true
    /\ keyT (db (snd (runUpdate chain ref s)))
       = upsertBatches
           (resolvedPrefix
              (answersFrom chain (operatorT s) (Meta.blockHash m) O
                           currentOperators))
           (deleteTails currentOperators (keyT s)).
Proof.
  destruct (runUpdate_world chain ref s)
    as [(e' & w & Hmeta & ->)
       | (currMeta & w & Hmeta
          & [(p & _ & _ & ->)
            | (_ & [(_ & ->)
                   | (_ & [(_ & ->)
                          | (currs & Hfetch & -> & ->)])])])];
    cbn [fst snd db log]; try discriminate.
  unfold syncUpdatedKeysWithContract.
  destruct (syncFrom_run chain (operatorT s) (Meta.blockHash currMeta)
              currs O (committedWorld s currMeta currs w))
    as (Hdb & _ & Hret & _).
  cbv zeta in *.
  destruct (fst (syncFrom _ _ _ _ _ _)) as [[]|e'] eqn:Hfst; [|discriminate].
  intros Hm. injection Hm as <-.
  exists currs. split; [assumption|]. split; [now apply Hret|].
  rewrite Hdb. reflexivity.
Qed.

(** X10.  A call of [update] that resolves to a meta has stored every key
    the contract returned to it: for each operator of the fetched list the
    key request resolved, and all keys of the answer are in the store
    afterwards.  This relies on the fetchers returning operators with
    pairwise different indices, keys of the operator asked for, and no key
    position twice in one answer; otherwise a later upsert of the same call
    would take the place of an earlier one. *)
Theorem resolved_update_stores_fetched_keys
        {service : AbstractRegistryService} chain ref s m :
  (forall a b h operators,
      operatorFetch chain a b h = Some operators ->
      NoDup (map Operator.index operators)) ->
  (forall operatorIndex from to h keys,
      keyFetch chain operatorIndex from to h = Some keys ->
      Forall (fun k => Key.operatorIndex k = operatorIndex) keys
      /\ NoDup (map keyId keys)) ->
  fst (runUpdate chain ref s) = Returned (Some m) ->
  exists currentOperators,
    operatorFetch chain 0%Z (-1)%Z (Meta.blockHash m) = Some currentOperators
    /\ forall position curr,
      nth_error currentOperators position = Some curr ->
      exists keys,
        keyFetch chain (Operator.index curr)
                 (fromIndexOf (nth_error (operatorT s) position) curr)
                 (getToIndex curr) (Meta.blockHash m) = Some keys
        /\ forall k, In k keys ->
                     In k (keyT (db (snd (runUpdate chain ref s)))).
Proof.
  intros Hoperators Hkeys Hresolved.
  destruct (resolved_update_store chain ref s m Hresolved)
    as (currs & Hfetch & Hall & ->).
  exists currs. split; [assumption|].
  intros position curr Hnth.
  pose proof (nth_error_answersFrom chain (operatorT s) (Meta.blockHash m)
                currs O position) as Hanswer.
  rewrite Hnth in Hanswer. cbn [option_map Nat.add] in Hanswer.
  destruct (keyFetch chain (Operator.index curr)
              (fromIndexOf (nth_error (operatorT s) position) curr)
              (getToIndex curr) (Meta.blockHash m)) as [keys|] eqn:Hks.
  - exists keys. split; [reflexivity|]. intros k Hk.
    apply (In_upsertBatches_new _ _ position keys k).
    + now apply nth_error_resolvedPrefix.
    + exact Hk.
    + apply (Hkeys _ _ _ _ _ Hks).
    + intros j' batch' r Hlt Hj' Hr.
      apply nth_error_resolvedPrefix in Hj'; [|assumption].
      rewrite nth_error_answersFrom in Hj'. cbn [Nat.add] in Hj'.
      destruct (nth_error currs j') as [curr'|] eqn:Hnth'; [|discriminate].
      cbn [option_map] in Hj'. injection Hj' as Hj'.
      destruct (keyConflict r k) eqn:Hc; [|reflexivity].
      exfalso.
      apply keyConflict_true in Hc as [_ Hop].
      destruct (Hkeys _ _ _ _ _ Hks) as [Hcarry _].
      destruct (Hkeys _ _ _ _ _ Hj') as [Hcarry' _].
      rewrite Forall_forall in Hcarry, Hcarry'.
      rewrite (Hcarry k Hk), (Hcarry' r Hr) in Hop.
      pose proof (Hoperators _ _ _ _ Hfetch) as Hnd.
      assert (Hsame : nth_error (map Operator.index currs) j'
                      = nth_error (map Operator.index currs) position).
      { rewrite !nth_error_map, Hnth, Hnth'. cbn. now rewrite Hop. }
      apply (proj1 (NoDup_nth_error _) Hnd) in Hsame; [lia|].
      rewrite length_map. apply nth_error_Some. now rewrite Hnth'.
  - exfalso.
    assert (Hnone : nth_error (answersFrom chain (operatorT s)
                                 (Meta.blockHash m) O currs) position
                    = Some None) by exact Hanswer.
    clear - Hall Hnone. revert position Hnone.
    induction (answersFrom chain (operatorT s) (Meta.blockHash m) O currs)
      as [|[x|] answers IH]; intros [|position] Hnone; cbn in *;
      try discriminate.
    now apply (IH Hall position).
Qed.

Lemma fixture_key_answers block keysOpIndex operators contract :
  NoDup (map keyId contract) ->
  forall operatorIndex from to h keys,
    keyFetch (Fixture.chainAt block keysOpIndex operators contract)
             operatorIndex from to h = Some keys ->
    Forall (fun k => Key.operatorIndex k = operatorIndex) keys
    /\ NoDup (map keyId keys).
Proof.
  intros Hnd operatorIndex from to h keys Hfetch. split.
  - apply Forall_forall. intros k Hk.
    apply (fixture_fetched _ _ _ _ _ _ _ _ _ _ Hfetch Hk).
  - cbn in Hfetch. injection Hfetch as <-.
    unfold Fixture.rangeOf. now apply filter_unique.
Qed.

Lemma resolved_update_stores_fetched_keys_witness :
  exists currentOperators,
    operatorFetch Fixture.chainS4 0%Z (-1)%Z "0xAB" = Some currentOperators
    /\ forall position curr,
      nth_error currentOperators position = Some curr ->
      exists keys,
        keyFetch Fixture.chainS4 (Operator.index curr)
                 (fromIndexOf (service := KeyRegistryService)
                    (nth_error (operatorT Fixture.storeS1) position) curr)
                 (getToIndex (AbstractRegistryService := KeyRegistryService)
                    curr) "0xAB"
        = Some keys
        /\ forall k,
          In k keys ->
          In k (keyT (db (snd (runUpdate (service := KeyRegistryService)
                                 Fixture.chainS4 (RefString "finalized")
                                 Fixture.storeS1)))).
Proof.
  apply (resolved_update_stores_fetched_keys (service := KeyRegistryService)
           Fixture.chainS4 (RefString "finalized") Fixture.storeS1
           (Meta.mk 101 "0xAB" 8 1712)).
  - intros a b h operators Hfetch. cbn in Hfetch. injection Hfetch as <-.
    cbn. repeat constructor; cbn; intuition discriminate.
  - apply fixture_key_answers.
    cbn. repeat constructor; cbn; intuition discriminate.
  - reflexivity.
Defined.

(* ===================================================================== *)
(** * The lookups by public key *)
(* ===================================================================== *)

Section PubkeyLookups.

Variable CURATED_ONCHAIN_V1_TYPE : string.
Variable query : unit -> list Key.t * option Meta.t.

(** What the loop collects: the rows of the query once per curated module
    it passes. *)
Lemma collectFrom_data rest :
  forall i collected before collected' snapshot,
    Http.collectFrom CURATED_ONCHAIN_V1_TYPE query i rest collected before
    = Http.Resolved (collected', snapshot) ->
    List.concat collected'
    = List.concat collected
      ++ keysPerCuratedModule CURATED_ONCHAIN_V1_TYPE rest (fst (query tt)).
Proof.
  unfold keysPerCuratedModule.
  induction rest as [|module rest IH];
    intros i collected before collected' snapshot Hloop.
  - cbn in Hloop. injection Hloop as -> _. cbn. now rewrite app_nil_r.
  - cbn [Http.collectFrom] in Hloop. cbn [flat_map].
    destruct (String.eqb _ _).
    + destruct (query tt) as [keys [meta|]] eqn:Hquery; [|discriminate].
      apply IH in Hloop. rewrite Hloop, concat_app. cbn [List.concat fst].
      now rewrite app_nil_r, app_assoc.
    + apply IH in Hloop. exact Hloop.
Qed.

(** Past the first module the loop does not touch the snapshot. *)
Lemma collectFrom_snapshot_kept rest :
  forall i collected before collected' snapshot,
    Http.collectFrom CURATED_ONCHAIN_V1_TYPE query (S i) rest collected
                     before
    = Http.Resolved (collected', snapshot) ->
    snapshot = before.
Proof.
  induction rest as [|module rest IH];
    intros i collected before collected' snapshot Hloop.
  - cbn in Hloop. now injection Hloop as _ ->.
  - cbn [Http.collectFrom] in Hloop.
    destruct (String.eqb _ _); [|now apply IH in Hloop].
    destruct (query tt) as [keys [meta|]]; [|discriminate].
    cbn [Nat.eqb] in Hloop. now apply IH in Hloop.
Qed.

(** The loop raises nothing but 425. *)
Lemma collectFrom_raises rest :
  forall i collected before e,
    Http.collectFrom CURATED_ONCHAIN_V1_TYPE query i rest collected before
    = Http.Raised e ->
    e = Http.TooEarly.
Proof.
  induction rest as [|module rest IH]; intros i collected before e Hloop.
  - discriminate.
  - cbn [Http.collectFrom] in Hloop.
    destruct (String.eqb _ _); [|now apply IH in Hloop].
    destruct (query tt) as [keys [meta|]].
    + now apply IH in Hloop.
    + now injection Hloop as <-.
Qed.

(** A snapshot at the end of the whole loop was made at the first module:
    that module is of the curated type and the query had a meta. *)
Lemma collectFrom_snapshot_first stakingModules collected' snapshot :
  Http.collectFrom CURATED_ONCHAIN_V1_TYPE query O stakingModules [] None
  = Http.Resolved (collected', Some snapshot) ->
  exists first rest meta,
    stakingModules = first :: rest
    /\ Http.type first = CURATED_ONCHAIN_V1_TYPE
    /\ snd (query tt) = Some meta.
Proof.
  destruct stakingModules as [|first rest]; [discriminate|].
  cbn [Http.collectFrom].
  destruct (String.eqb _ _) eqn:Htype.
  - destruct (query tt) as [keys [meta|]]; [|discriminate].
    intros _. exists first, rest, meta.
    apply String.eqb_eq in Htype. auto.
  - intros Hloop. apply collectFrom_snapshot_kept in Hloop. discriminate.
Qed.

End PubkeyLookups.

(** X11.  What the lookups by public key return: the rows that the curated
    service finds, repeated once for every staking module of the curated
    type, in the order of the modules, each copy carrying the address of
    its module.  The rows are not filtered by module, so with two curated
    modules every stored key comes back twice. *)
Theorem pubkey_lookups_data CURATED_ONCHAIN_V1_TYPE stakingModules
        curatedService :
  (forall pubkey r,
      Http.getByPubkey CURATED_ONCHAIN_V1_TYPE stakingModules curatedService
                       pubkey = Http.Resolved r ->
      Http.data r
      = keysPerCuratedModule CURATED_ONCHAIN_V1_TYPE stakingModules
          (fst (Http.getKeyWithMetaByPubkey curatedService pubkey)))
  /\ (forall pubkeys r,
         Http.getByPubkeys CURATED_ONCHAIN_V1_TYPE stakingModules
                           curatedService pubkeys = Http.Resolved r ->
         Http.data r
         = keysPerCuratedModule CURATED_ONCHAIN_V1_TYPE stakingModules
             (fst (Http.getKeysWithMetaByPubkeys curatedService pubkeys))).
Proof.
  split.
  - intros pubkey r. unfold Http.getByPubkey.
    destruct (List.length stakingModules =? 0)%nat; [discriminate|].
    destruct (Http.collectFrom _ _ _ _ _ _)
      as [[collected [snapshot|]]|e] eqn:Hloop; try discriminate.
    apply (collectFrom_data CURATED_ONCHAIN_V1_TYPE
             (fun _ => Http.getKeyWithMetaByPubkey curatedService pubkey))
      in Hloop.
    destruct (List.length (List.concat collected) =? 0)%nat; [discriminate|].
    intros Hr. injection Hr as <-. exact Hloop.
  - intros pubkeys r. unfold Http.getByPubkeys.
    destruct (List.length stakingModules =? 0)%nat; [discriminate|].
    destruct (Http.collectFrom _ _ _ _ _ _)
      as [[collected [snapshot|]]|e] eqn:Hloop; try discriminate.
    apply (collectFrom_data CURATED_ONCHAIN_V1_TYPE
             (fun _ => Http.getKeysWithMetaByPubkeys curatedService pubkeys))
      in Hloop.
    intros Hr. injection Hr as <-. exact Hloop.
Qed.

Lemma pubkey_lookups_data_witness :
  Http.data
    (Http.mkKeyListResponse
       [Http.mkKeyWithModuleAddress (Fixture.key 1 1 "0xb1" false)
                                    Fixture.address;
        Http.mkKeyWithModuleAddress (Fixture.key 1 1 "0xb1" false) "0x02"]
       (Http.newELBlockSnapshot Fixture.meta100))
  = keysPerCuratedModule Fixture.curatedType
      [Fixture.curatedModule; Fixture.otherModule;
       Http.mkModule Fixture.curatedType "0x02"]
      (fst (Http.getKeyWithMetaByPubkey
              (Http.curatedServiceOf Fixture.storeS1) "0xb1")).
Proof.
  apply (proj1 (pubkey_lookups_data Fixture.curatedType
                  [Fixture.curatedModule; Fixture.otherModule;
                   Http.mkModule Fixture.curatedType "0x02"]
                  (Http.curatedServiceOf Fixture.storeS1)) "0xb1").
  reflexivity.
Defined.

(** X12.  The errors of the lookups by public key.  [getByPubkeys] raises
    nothing but 425.  [getByPubkey] raises 425 or the 404 that names the
    public key, and the 404 only when the first staking module is of the
    curated type, the meta is not null and the curated service finds no
    key; what it resolves with is never empty. *)
Theorem pubkey_lookups_errors CURATED_ONCHAIN_V1_TYPE stakingModules
        curatedService :
  (forall pubkeys e,
      Http.getByPubkeys CURATED_ONCHAIN_V1_TYPE stakingModules curatedService
                        pubkeys = Http.Raised e ->
      e = Http.TooEarly)
  /\ (forall pubkey e,
         Http.getByPubkey CURATED_ONCHAIN_V1_TYPE stakingModules
                          curatedService pubkey = Http.Raised e ->
         e = Http.TooEarly
         \/ (e = Http.NotFound ("There are no keys with " ++ pubkey
                                ++ " public key in db.")%string
             /\ exists first rest meta,
               stakingModules = first :: rest
               /\ Http.type first = CURATED_ONCHAIN_V1_TYPE
               /\ Http.getKeyWithMetaByPubkey curatedService pubkey
                  = ([], Some meta)))
  /\ (forall pubkey r,
         Http.getByPubkey CURATED_ONCHAIN_V1_TYPE stakingModules
                          curatedService pubkey = Http.Resolved r ->
         Http.data r <> []).
Proof.
  split; [|split].
  - intros pubkeys e. unfold Http.getByPubkeys.
    destruct (List.length stakingModules =? 0)%nat;
      [intros H; now injection H as <-|].
    destruct (Http.collectFrom _ _ _ _ _ _)
      as [[collected [snapshot|]]|e'] eqn:Hloop.
    + discriminate.
    + intros H; now injection H as <-.
    + intros H; injection H as <-.
      now apply collectFrom_raises in Hloop.
  - intros pubkey e. unfold Http.getByPubkey.
    destruct (List.length stakingModules =? 0)%nat;
      [intros H; injection H as <-; now left|].
    destruct (Http.collectFrom _ _ _ _ _ _)
      as [[collected [snapshot|]]|e'] eqn:Hloop.
    + destruct (List.length (List.concat collected) =? 0)%nat eqn:Hempty;
        [|discriminate].
      intros H. injection H as <-. right. split; [reflexivity|].
      pose proof (collectFrom_data _ _ _ _ _ _ _ _ Hloop) as Hdata.
      apply collectFrom_snapshot_first in Hloop
        as (first & rest & meta & -> & Htype & Hmeta).
      exists first, rest, meta. split; [reflexivity|]. split; [assumption|].
      apply Nat.eqb_eq, length_zero_iff_nil in Hempty.
      rewrite Hempty in Hdata. cbn [List.concat app] in Hdata.
      unfold keysPerCuratedModule in Hdata. cbn [flat_map] in Hdata.
      rewrite Htype, String.eqb_refl in Hdata.
      destruct (Http.getKeyWithMetaByPubkey curatedService pubkey)
        as [keys meta'].
      cbn [fst snd] in *. subst meta'.
      destruct keys; [reflexivity | discriminate].
    + intros H; injection H as <-. now left.
    + intros H; injection H as <-. left.
      now apply collectFrom_raises in Hloop.
  - intros pubkey r. unfold Http.getByPubkey.
    destruct (List.length stakingModules =? 0)%nat; [discriminate|].
    destruct (Http.collectFrom _ _ _ _ _ _)
      as [[collected [snapshot|]]|e']; try discriminate.
    destruct (List.concat collected); [discriminate|].
    cbn [List.length Nat.eqb]. intros H. injection H as <-. discriminate.
Qed.

Lemma pubkey_lookups_errors_witness :
  Http.NotFound "There are no keys with 0xee public key in db."
  = Http.TooEarly
  \/ (Http.NotFound "There are no keys with 0xee public key in db."
      = Http.NotFound ("There are no keys with " ++ "0xee"
                       ++ " public key in db.")%string
      /\ exists first rest meta,
        [Fixture.curatedModule; Fixture.otherModule] = first :: rest
        /\ Http.type first = Fixture.curatedType
        /\ Http.getKeyWithMetaByPubkey
             (Http.curatedServiceOf Fixture.storeS1) "0xee"
           = ([], Some meta)).
Proof.
  apply (proj1 (proj2 (pubkey_lookups_errors Fixture.curatedType
                         [Fixture.curatedModule; Fixture.otherModule]
                         (Http.curatedServiceOf Fixture.storeS1)))
           "0xee").
  reflexivity.
Defined.

(* ===================================================================== *)
(** * The watchdog over whole runs *)
(* ===================================================================== *)

Section WatchdogRuns.

Import Watchdog.

Lemma timeout_positive : 0 < UPDATE_VALIDATORS_TIMEOUT_MS.
Proof. reflexivity. Qed.

(** A successful cycle whose last block timestamp is fresh replaces the
    one pending timer by a new one. *)
Lemma cycle_rearms p meta handle due t :
  pending p = [(handle, due)] ->
  updateDeadlineTimer (this p) = Some handle ->
  match meta with
  | Some m => Some (timestamp m)
  | None => lastBlockTimestampSec (this p)
  end = Some t ->
  (t =? 0) = false ->
  (now p <? t * 1000 + UPDATE_VALIDATORS_TIMEOUT_MS) = true ->
  pending (updateValidatorsResolved meta p)
  = [(nextHandle p, now p + UPDATE_VALIDATORS_TIMEOUT_MS)]
  /\ updateDeadlineTimer (this (updateValidatorsResolved meta p))
     = Some (nextHandle p)
  /\ lastBlockTimestampSec (this (updateValidatorsResolved meta p)) = Some t
  /\ now (updateValidatorsResolved meta p) = now p
  /\ exited (updateValidatorsResolved meta p) = exited p.
Proof.
  intros Hpending Htimer Hlast Hnonzero Hfresh.
  unfold updateValidatorsResolved, checkValidatorsUpdateTimeout.
  cbn [this updateDeadlineTimer]. rewrite Htimer.
  unfold isUpdated. cbn [this lastBlockTimestampSec now].
  rewrite Hlast, Hnonzero, Hfresh.
  cbn [negb andb]. unfold clearTimeout, setTimeout.
  cbn [pending now nextHandle this exited updateDeadlineTimer
       lastBlockTimestampSec].
  rewrite Hpending. cbn [filter fst]. rewrite Nat.eqb_refl. cbn [negb app].
  repeat split; reflexivity.
Qed.

Lemma timely_run steps :
  forall p handle due,
    exited p = None ->
    pending p = [(handle, due)] ->
    updateDeadlineTimer (this p) = Some handle ->
    timely (now p) due (lastBlockTimestampSec (this p)) steps = true ->
    exited (run steps p) = None
    /\ exists handle' due',
      pending (run steps p) = [(handle', due')]
      /\ updateDeadlineTimer (this (run steps p)) = Some handle'.
Proof.
  induction steps as [|[ms|meta] steps IH];
    intros p handle due Hrun Hpending Htimer Htimely.
  - split; [exact Hrun|]. exists handle, due. auto.
  - cbn [timely] in Htimely.
    apply andb_true_iff in Htimely as [Hbefore Hrest].
    apply N.ltb_lt in Hbefore.
    assert (Hstep : step p (Elapse ms)
                    = mkProcess (now p + ms) [(handle, due)] (nextHandle p)
                                (this p) None).
    { unfold step, elapse. rewrite Hrun, Hpending.
      cbn [earliest fold_right snd].
      destruct (N.leb_spec due (now p + ms)) as [Hfire | _];
        [lia | reflexivity]. }
    change (run (Elapse ms :: steps) p) with (run steps (step p (Elapse ms))).
    rewrite Hstep. apply (IH _ handle due); auto.
  - cbn [timely] in Htimely.
    destruct (match meta with
              | Some m => Some (timestamp m)
              | None => lastBlockTimestampSec (this p)
              end) as [t|] eqn:Hlast; [|discriminate].
    apply andb_true_iff in Htimely as [Hfresh Hrest].
    apply andb_true_iff in Hfresh as [Hnonzero Hfresh].
    apply negb_true_iff in Hnonzero.
    destruct (cycle_rearms p meta handle due t Hpending Htimer Hlast
                Hnonzero Hfresh) as (Hp & Ht & Hl & Hn & Hx).
    assert (Hstep : step p (CycleSucceeded meta)
                    = updateValidatorsResolved meta p)
      by (unfold step; now rewrite Hrun).
    change (run (CycleSucceeded meta :: steps) p)
      with (run steps (step p (CycleSucceeded meta))).
    rewrite Hstep.
    apply (IH _ (nextHandle p) (now p + UPDATE_VALIDATORS_TIMEOUT_MS));
      auto.
    + now rewrite Hx.
    + now rewrite Hn, Hl.
Qed.

Lemma In_earliest timers handle due :
  In (handle, due) timers ->
  exists first, earliest timers = Some first /\ first <= due.
Proof.
  induction timers as [|t timers IH]; [contradiction|].
  intros Hin.
  change (earliest (t :: timers))
    with (match earliest timers with
          | Some d => Some (N.min (snd t) d)
          | None => Some (snd t)
          end).
  destruct Hin as [-> | Hin].
  - destruct (earliest timers) as [d|]; eexists; split; try reflexivity;
      cbn [snd]; lia.
  - destruct (IH Hin) as (first & -> & Hle).
    eexists; split; [reflexivity | lia].
Qed.

Lemma earliest_first timers first :
  earliest timers = Some first ->
  Forall (fun t => first <= snd t) timers.
Proof.
  revert first. induction timers as [|t timers IH]; intros first Hfirst;
    [constructor|].
  change (earliest (t :: timers))
    with (match earliest timers with
          | Some d => Some (N.min (snd t) d)
          | None => Some (snd t)
          end) in Hfirst.
  destruct (earliest timers) as [d|] eqn:Hd.
  - injection Hfirst as <-. constructor; [lia|].
    eapply Forall_impl; [|apply (IH d eq_refl)]. cbn. intros a Ha. lia.
  - injection Hfirst as <-. constructor; [lia|].
    destruct timers as [|t' timers]; [constructor|].
    exfalso. clear - Hd.
    change (earliest (t' :: timers))
      with (match earliest timers with
            | Some d => Some (N.min (snd t') d)
            | None => Some (snd t')
            end) in Hd.
    destruct (earliest timers); discriminate.
Qed.

(** [checkValidatorsUpdateTimeout] clears no timer but the one in
    [updateDeadlineTimer]. *)
Lemma cycle_keeps_other_timers p meta handle due :
  In (handle, due) (pending p) ->
  updateDeadlineTimer (this p) <> Some handle ->
  In (handle, due) (pending (updateValidatorsResolved meta p)).
Proof.
  intros Hin Hother.
  unfold updateValidatorsResolved, checkValidatorsUpdateTimeout.
  cbn [this updateDeadlineTimer].
  destruct (updateDeadlineTimer (this p)) as [armed|];
    [destruct (isUpdated _)|];
    cbn [setTimeout clearTimeout pending now nextHandle this exited];
    apply in_or_app; left; try assumption.
  apply filter_In. split; [assumption|]. cbn [fst].
  apply negb_true_iff, Nat.eqb_neq. congruence.
Qed.

Lemma cycle_frame p meta :
  now (updateValidatorsResolved meta p) = now p
  /\ exited (updateValidatorsResolved meta p) = exited p
  /\ nextHandle (updateValidatorsResolved meta p) = S (nextHandle p)
  /\ updateDeadlineTimer (this (updateValidatorsResolved meta p))
     = Some (nextHandle p)
  /\ forall t,
      In t (pending (updateValidatorsResolved meta p)) ->
      In t (pending p)
      \/ t = (nextHandle p, now p + UPDATE_VALIDATORS_TIMEOUT_MS).
Proof.
  unfold updateValidatorsResolved, checkValidatorsUpdateTimeout.
  cbn [this updateDeadlineTimer].
  destruct (updateDeadlineTimer (this p)) as [armed|];
    [destruct (isUpdated _)|];
    cbn [setTimeout clearTimeout pending now nextHandle this exited
         updateDeadlineTimer];
    repeat split; intros t Ht;
    apply in_app_or in Ht as [Ht | [<- | []]]; auto.
  left. now apply filter_In in Ht as [Ht _].
Qed.

Lemma step_timersAhead p s :
  exited p = None -> timersAhead p ->
  exited (step p s) = None -> timersAhead (step p s).
Proof.
  intros Hrun Hahead. unfold step. rewrite Hrun.
  destruct s as [ms|meta].
  - unfold elapse.
    destruct (earliest (pending p)) as [first|] eqn:Hfirst.
    + destruct (N.leb_spec first (now p + ms)) as [Hfire | Hwait];
        [discriminate|].
      intros _ handle due Hin. cbn [pending nextHandle now] in *.
      split; [now apply (Hahead handle due)|].
      apply earliest_first in Hfirst. rewrite Forall_forall in Hfirst.
      specialize (Hfirst _ Hin). cbn [snd] in Hfirst. lia.
    + intros _ handle due Hin. cbn [pending] in Hin.
      destruct (In_earliest _ _ _ Hin) as (first & Hsome & _). congruence.
  - intros _ handle due Hin.
    destruct (cycle_frame p meta) as (Hnow & _ & Hnext & _ & Hpending).
    rewrite Hnow, Hnext.
    destruct (Hpending _ Hin) as [Hold | Hnew].
    + destruct (Hahead _ _ Hold). split; [lia | assumption].
    + injection Hnew as -> ->. pose proof timeout_positive. split; lia.
Qed.

Lemma step_exited_before p s :
  exited (step p s) = None -> exited p = None.
Proof.
  unfold step. destruct (exited p) eqn:Hx; [congruence | reflexivity].
Qed.

Lemma run_exited_before steps :
  forall p, exited (run steps p) = None -> exited p = None.
Proof.
  unfold run. induction steps as [|s steps IH]; intros p Hrun;
    [assumption|].
  cbn [fold_left] in Hrun. apply IH in Hrun.
  now apply step_exited_before in Hrun.
Qed.

Lemma run_timersAhead steps :
  forall p,
    exited p = None -> timersAhead p ->
    exited (run steps p) = None -> timersAhead (run steps p).
Proof.
  unfold run. induction steps as [|s steps IH]; intros p Hrun Hahead Hend;
    [assumption|].
  cbn [fold_left] in *.
  pose proof (run_exited_before steps _ Hend) as Hstep.
  apply IH; [assumption | | assumption].
  now apply step_timersAhead.
Qed.

Lemma initialize_timersAhead wallClock : timersAhead (initialize wallClock).
Proof.
  intros handle due [Hin | []]. injection Hin as <- <-.
  cbn [nextHandle now initialize checkValidatorsUpdateTimeout start
       setTimeout this updateDeadlineTimer].
  pose proof timeout_positive. split; lia.
Qed.

(** A pending timer that [updateDeadlineTimer] does not hold ends the
    process at its firing time at the latest. *)
Lemma other_timer_fires steps :
  forall p handle due,
    exited p = None ->
    timersAhead p ->
    In (handle, due) (pending p) ->
    updateDeadlineTimer (this p) <> Some handle ->
    due <= now p + elapsed steps ->
    exists lastBlock,
      exited (run steps p) = Some (1, outdated lastBlock)
      /\ now (run steps p) <= due.
Proof.
  induction steps as [|[ms|meta] steps IH];
    intros p handle due Hrun Hahead Hin Hother Hdue.
  - destruct (Hahead _ _ Hin) as [_ Hlt]. cbn in Hdue. lia.
  - change (elapsed (Elapse ms :: steps)) with (ms + elapsed steps) in Hdue.
    destruct (Hahead _ _ Hin) as [_ Hlt].
    destruct (In_earliest _ _ _ Hin) as (first & Hfirst & Hle).
    unfold run. cbn [fold_left].
    destruct (N.leb_spec first (now p + ms)) as [Hfire | Hwait].
    + assert (Hstep : step p (Elapse ms)
                      = deadlineCallback
                          (mkProcess (N.max (now p) first) (pending p)
                                     (nextHandle p) (this p) None)).
      { unfold step, elapse. rewrite Hrun, Hfirst.
        apply N.leb_le in Hfire. now rewrite Hfire. }
      rewrite Hstep.
      exists (lastBlockNumber (this p)).
      erewrite (run_exited steps) by reflexivity.
      split; [reflexivity|]. cbn [now deadlineCallback]. lia.
    + assert (Hstep : step p (Elapse ms)
                      = mkProcess (now p + ms) (pending p) (nextHandle p)
                                  (this p) None).
      { unfold step, elapse. rewrite Hrun, Hfirst.
        apply N.leb_gt in Hwait. now rewrite Hwait. }
      assert (Hahead' : timersAhead (step p (Elapse ms))).
      { apply step_timersAhead; auto. now rewrite Hstep. }
      rewrite Hstep in *.
      apply (IH _ handle due); auto. cbn [now]. lia.
  - change (elapsed (CycleSucceeded meta :: steps)) with (elapsed steps)
      in Hdue.
    destruct (cycle_frame p meta) as (Hnow & Hx & Hnext & Htimer & _).
    destruct (Hahead _ _ Hin) as [Hlt _].
    unfold run. cbn [fold_left].
    assert (Hstep : step p (CycleSucceeded meta)
                    = updateValidatorsResolved meta p)
      by (unfold step; now rewrite Hrun).
    assert (Hahead' : timersAhead (step p (CycleSucceeded meta))).
    { apply step_timersAhead; auto. now rewrite Hstep, Hx. }
    rewrite Hstep in *.
    apply (IH _ handle due).
    + now rewrite Hx.
    + assumption.
    + now apply cycle_keeps_other_timers.
    + rewrite Htimer. intros H. injection H as H. lia.
    + now rewrite Hnow.
Qed.

End WatchdogRuns.

(** X13.  The watchdog never ends a run that is on time: from
    [initialize] on, as long as every successful cycle leaves a last block
    timestamp that is set, not zero and less than the timeout behind the
    clock, and the clock never reaches the firing time of the timer armed
    last, the process does not exit and exactly one timer is pending, the
    one held in [updateDeadlineTimer]. *)
Theorem watchdog_timely_run_never_exits wallClock steps :
  timely wallClock (wallClock + Watchdog.UPDATE_VALIDATORS_TIMEOUT_MS) None
         steps = true ->
  Watchdog.exited (Watchdog.run steps (Watchdog.initialize wallClock)) = None
  /\ exists handle due,
    Watchdog.pending (Watchdog.run steps (Watchdog.initialize wallClock))
    = [(handle, due)]
    /\ Watchdog.updateDeadlineTimer
         (Watchdog.this
            (Watchdog.run steps (Watchdog.initialize wallClock)))
       = Some handle.
Proof.
  intros Htimely.
  apply (timely_run steps (Watchdog.initialize wallClock) O
           (wallClock + Watchdog.UPDATE_VALIDATORS_TIMEOUT_MS));
    try reflexivity.
  exact Htimely.
Qed.

Lemma watchdog_timely_run_never_exits_witness :
  Watchdog.exited
    (Watchdog.run
       [Watchdog.Elapse 2000000;
        Watchdog.CycleSucceeded (Some Fixture.freshMeta);
        Watchdog.Elapse 3000000;
        Watchdog.CycleSucceeded None;
        Watchdog.Elapse 5399999]
       (Watchdog.initialize Fixture.wallClock)) = None
  /\ exists handle due,
    Watchdog.pending
      (Watchdog.run
         [Watchdog.Elapse 2000000;
          Watchdog.CycleSucceeded (Some Fixture.freshMeta);
          Watchdog.Elapse 3000000;
          Watchdog.CycleSucceeded None;
          Watchdog.Elapse 5399999]
         (Watchdog.initialize Fixture.wallClock))
    = [(handle, due)]
    /\ Watchdog.updateDeadlineTimer
         (Watchdog.this
            (Watchdog.run
               [Watchdog.Elapse 2000000;
                Watchdog.CycleSucceeded (Some Fixture.freshMeta);
                Watchdog.Elapse 3000000;
                Watchdog.CycleSucceeded None;
                Watchdog.Elapse 5399999]
               (Watchdog.initialize Fixture.wallClock)))
       = Some handle.
Proof.
  apply (watchdog_timely_run_never_exits Fixture.wallClock
           [Watchdog.Elapse 2000000;
            Watchdog.CycleSucceeded (Some Fixture.freshMeta);
            Watchdog.Elapse 3000000;
            Watchdog.CycleSucceeded None;
            Watchdog.Elapse 5399999]).
  vm_compute. reflexivity.
Defined.

(** X14.  A timer that a successful cycle did not clear is never cleared
    later: once a timer other than the one in [updateDeadlineTimer] is
    pending, the process exits with code 1 at the firing time of that
    timer at the latest, whatever cycles succeed in between and however
    fresh their blocks are. *)
Theorem watchdog_left_timer_exits wallClock before after handle due :
  Watchdog.exited (Watchdog.run before (Watchdog.initialize wallClock))
  = None ->
  In (handle, due)
     (Watchdog.pending (Watchdog.run before (Watchdog.initialize wallClock)))
  ->
  Watchdog.updateDeadlineTimer
    (Watchdog.this (Watchdog.run before (Watchdog.initialize wallClock)))
  <> Some handle ->
  due <= Watchdog.now (Watchdog.run before (Watchdog.initialize wallClock))
         + Watchdog.elapsed after ->
  exists lastBlock,
    Watchdog.exited
      (Watchdog.run after
         (Watchdog.run before (Watchdog.initialize wallClock)))
    = Some (1, Watchdog.outdated lastBlock)
    /\ Watchdog.now
         (Watchdog.run after
            (Watchdog.run before (Watchdog.initialize wallClock)))
       <= due.
Proof.
  intros Hrun Hin Hother Hdue.
  apply (other_timer_fires after _ handle due); auto.
  apply run_timersAhead; [reflexivity | | assumption].
  apply initialize_timersAhead.
Qed.

Lemma watchdog_left_timer_exits_witness :
  exists lastBlock,
    Watchdog.exited
      (Watchdog.run
         [Watchdog.CycleSucceeded (Some Fixture.freshMeta);
          Watchdog.Elapse 5399000]
         (Watchdog.run
            [Watchdog.Elapse 1000;
             Watchdog.CycleSucceeded (Some Fixture.staleMeta)]
            (Watchdog.initialize Fixture.wallClock)))
    = Some (1, Watchdog.outdated lastBlock)
    /\ Watchdog.now
         (Watchdog.run
            [Watchdog.CycleSucceeded (Some Fixture.freshMeta);
             Watchdog.Elapse 5399000]
            (Watchdog.run
               [Watchdog.Elapse 1000;
                Watchdog.CycleSucceeded (Some Fixture.staleMeta)]
               (Watchdog.initialize Fixture.wallClock)))
       <= Fixture.wallClock + 5400000.
Proof.
  apply (watchdog_left_timer_exits Fixture.wallClock
           [Watchdog.Elapse 1000;
            Watchdog.CycleSucceeded (Some Fixture.staleMeta)]
           [Watchdog.CycleSucceeded (Some Fixture.freshMeta);
            Watchdog.Elapse 5399000]
           O (Fixture.wallClock + 5400000)).
  - reflexivity.
  - vm_compute. left. reflexivity.
  - vm_compute. discriminate.
  - vm_compute. discriminate.
Defined.

(* ===================================================================== *)
(** * The first update *)
(* ===================================================================== *)

(** The key requests of a call that resolves to a meta. *)
Lemma resolved_update_requests {service : AbstractRegistryService}
      chain ref s m :
  fst (runUpdate chain ref s) = Returned (Some m) ->
  exists currentOperators,
    operatorFetch chain 0%Z (-1)%Z (Meta.blockHash m) = Some currentOperators
    /\ keyFetches (log (snd (runUpdate chain ref s)))
       = requestsByPosition (operatorT s) currentOperators (Meta.blockHash m).
Proof.
  destruct (runUpdate_world chain ref s)
    as [(e' & w & Hmeta & ->)
       | (currMeta & w & Hmeta
          & [(p & _ & _ & ->)
            | (_ & [(_ & ->)
                   | (_ & [(_ & ->)
                          | (currs & Hfetch & -> & ->)])])])];
    cbn [fst snd db log]; try discriminate.
  unfold syncUpdatedKeysWithContract.
  destruct (getMetaDataFromContract_resolved _ _ _ _ _ Hmeta) as [-> _].
  destruct (syncFrom_run chain (operatorT s) (Meta.blockHash currMeta)
              currs O
              (committedWorld s currMeta currs
                 (mkWorld s [EvGetBlock ref;
                             EvFetchKeysOpIndex (Meta.blockHash currMeta)])))
    as (_ & Hlog & Hret & _).
  cbv zeta in *.
  destruct (fst (syncFrom _ _ _ _ _ _)) as [[]|e'] eqn:Hfst; [|discriminate].
  intros Hm. injection Hm as <-.
  pose proof (proj1 Hret eq_refl) as Hall.
  exists currs. split; [assumption|].
  rewrite Hlog, keyFetches_committed. cbn [app].
  rewrite (resolvedPrefix_all _ Hall), answersFrom_length.
  unfold requestsByPosition. apply firstn_all2.
  rewrite requestsFromPosition_length. lia.
Qed.

Lemma requestsFromPosition_nil {service : AbstractRegistryService}
      blockHash rest :
  forall i,
    requestsFromPosition [] blockHash i rest
    = map (fun curr => EvFetchKeys (Operator.index curr) 0 (getToIndex curr)
                                   blockHash) rest.
Proof.
  induction rest as [|curr rest IH]; intros i; [reflexivity|].
  rewrite requestsFromPosition_cons, IH. cbn [map]. f_equal.
  unfold keyRequest. f_equal.
  destruct i; cbn [nth_error]; unfold fromIndexOf; cbn [compareOperators];
    now destruct (0 <=? getToIndex curr).
Qed.

(** X15.  On a store without a meta, [update] never resolves to
    [undefined]: neither the guard on the block number nor the fast path
    applies, so the call rejects or goes the whole slow path.  When no
    operators are stored either, a call that resolves has asked for the
    keys of every fetched operator from index 0 up to [getToIndex]. *)
Theorem first_update_fetches_everything {service : AbstractRegistryService}
        chain ref s :
  metaT s = None ->
  fst (runUpdate chain ref s) <> Returned None
  /\ (operatorT s = [] ->
      forall m,
        fst (runUpdate chain ref s) = Returned (Some m) ->
        exists currentOperators,
          operatorFetch chain 0%Z (-1)%Z (Meta.blockHash m)
          = Some currentOperators
          /\ keyFetches (log (snd (runUpdate chain ref s)))
             = map (fun curr =>
                      EvFetchKeys (Operator.index curr) 0 (getToIndex curr)
                                  (Meta.blockHash m))
                   currentOperators).
Proof.
  intros Hnone. split.
  - destruct (runUpdate_world chain ref s)
      as [(e' & w & _ & ->)
         | (currMeta & w & _
            & [(p & Hp & _ & _)
              | (_ & [(Hsame & _)
                     | (_ & [(_ & ->)
                            | (currs & _ & _ & ->)])])])];
      cbn [fst]; try discriminate.
    + congruence.
    + rewrite Hnone in Hsame. discriminate.
    + destruct (fst (syncUpdatedKeysWithContract _ _ _ _ _)); discriminate.
  - intros Hempty m Hm.
    destruct (resolved_update_requests chain ref s m Hm)
      as (currs & Hfetch & Hlog).
    exists currs. split; [assumption|].
    rewrite Hlog, Hempty. apply requestsFromPosition_nil.
Qed.

Lemma first_update_fetches_everything_witness :
  fst (runUpdate (service := KeyRegistryService) Fixture.chainS1
                 (RefString "finalized") emptyStore) <> Returned None
  /\ (operatorT emptyStore = [] ->
      forall m,
        fst (runUpdate (service := KeyRegistryService) Fixture.chainS1
                       (RefString "finalized") emptyStore)
        = Returned (Some m) ->
        exists currentOperators,
          operatorFetch Fixture.chainS1 0%Z (-1)%Z (Meta.blockHash m)
          = Some currentOperators
          /\ keyFetches
               (log (snd (runUpdate (service := KeyRegistryService)
                            Fixture.chainS1 (RefString "finalized")
                            emptyStore)))
             = map (fun curr =>
                      EvFetchKeys (Operator.index curr) 0
                                  (getToIndex
                                     (AbstractRegistryService :=
                                        KeyRegistryService) curr)
                                  (Meta.blockHash m))
                   currentOperators).
Proof.
  apply (first_update_fetches_everything (service := KeyRegistryService)
           Fixture.chainS1 (RefString "finalized") emptyStore).
  reflexivity.
Defined.

(* ===================================================================== *)
(** * What an update deletes *)
(* ===================================================================== *)

Section UpsertKeepsIds.

Context {R I : Type}.
Variable conflict : R -> R -> bool.
Variable id : R -> I.
Hypothesis conflict_id : forall a b, conflict a b = true <-> id a = id b.


End UpsertKeepsIds.



(* ===================================================================== *)
(** * The watchdog and the successful cycle *)
(* ===================================================================== *)

Section WatchdogCycles.

Import Watchdog.

(** Every successful cycle arms a new timer. *)
Lemma cycle_arms p meta :
  In (nextHandle p, now p + UPDATE_VALIDATORS_TIMEOUT_MS)
     (pending (updateValidatorsResolved meta p)).
Proof.
  unfold updateValidatorsResolved, checkValidatorsUpdateTimeout.
  cbn [this updateDeadlineTimer].
  destruct (updateDeadlineTimer (this p)) as [armed|];
    [destruct (isUpdated _)|];
    cbn [setTimeout clearTimeout pending now nextHandle this exited];
    apply in_or_app; right; left; reflexivity.
Qed.

(** A successful cycle whose block is not fresh clears nothing. *)
Lemma stale_cycle_keeps_timers p m t :
  timestamp m = 0
  \/ timestamp m * 1000 + UPDATE_VALIDATORS_TIMEOUT_MS <= now p ->
  In t (pending p) ->
  In t (pending (updateValidatorsResolved (Some m) p)).
Proof.
  intros Hstale Hin.
  unfold updateValidatorsResolved, checkValidatorsUpdateTimeout.
  cbn [this updateDeadlineTimer].
  assert (Hnot : isUpdated
                   (mkProcess (now p) (pending p) (nextHandle p)
                      (mkService (Some (timestamp m)) (Some (blockNumber m))
                                 (Some (slot m))
                                 (updateDeadlineTimer (this p)))
                      (exited p)) = false).
  { unfold isUpdated. cbn [this lastBlockTimestampSec now].
    destruct Hstale as [-> | Hbehind].
    - reflexivity.
    - apply N.ltb_ge in Hbehind. rewrite Hbehind. apply andb_false_r. }
  rewrite Hnot.
  destruct (updateDeadlineTimer (this p)) as [armed|];
    cbn [setTimeout pending now nextHandle this exited];
    apply in_or_app; left; assumption.
Qed.

Lemma cycle_last_block p m :
  lastBlockNumber (this (updateValidatorsResolved (Some m) p))
  = Some (blockNumber m).
Proof.
  unfold updateValidatorsResolved, checkValidatorsUpdateTimeout.
  cbn [this updateDeadlineTimer].
  destruct (updateDeadlineTimer (this p)) as [armed|];
    [destruct (isUpdated _)|]; reflexivity.
Qed.

(** While only time passes, a pending timer ends the process once the
    clock reaches its firing time. *)
Lemma pending_timer_fires steps p handle due :
  exited p = None ->
  In (handle, due) (pending p) ->
  forallb isElapse steps = true ->
  now p < due ->
  due <= now p + elapsed steps ->
  exited (run steps p) = Some (1, outdated (lastBlockNumber (this p))).
Proof.
  intros Hrun Hin Hsteps Hnow Hdue.
  destruct (In_earliest _ _ _ Hin) as (first & Hfirst & Hle).
  apply (run_elapse_fires steps p first); auto; [|lia].
  intros ->. cbn in Hdue. lia.
Qed.

End WatchdogCycles.

(** C9, as amended.  The timeout is 90 minutes.  Once
    [checkValidatorsUpdateTimeout] has armed the timer, if only time passes
    (no update cycle succeeds) for [UPDATE_VALIDATORS_TIMEOUT_MS] or more,
    the process exits with code 1 and the error carries the last block
    number.  Every successful cycle arms a new timer and holds it in
    [updateDeadlineTimer].  A cycle that succeeds with a block whose
    timestamp is zero or at least the timeout behind the clock clears
    nothing: every timer that was pending stays pending, and the process
    exits at its firing time, with the block number of that cycle.  A
    pending timer that [updateDeadlineTimer] does not hold is cleared by no
    cycle, so the process exits at its firing time however fresh the block
    is.  When the timer held in [updateDeadlineTimer] is the only one
    pending and the cycle succeeds with a block whose timestamp is not
    zero and less than the timeout behind the clock, that timer is
    cleared, only the new one is pending, and the process does not exit
    for the next [UPDATE_VALIDATORS_TIMEOUT_MS]. *)
Theorem watchdog_deadline :
  Watchdog.UPDATE_VALIDATORS_TIMEOUT_MS = 5400000
  /\ (forall p steps,
         Watchdog.exited p = None ->
         forallb Watchdog.isElapse steps = true ->
         Watchdog.UPDATE_VALIDATORS_TIMEOUT_MS <= Watchdog.elapsed steps ->
         Watchdog.exited
           (Watchdog.run steps (Watchdog.checkValidatorsUpdateTimeout p))
         = Some (1, Watchdog.outdated
                      (Watchdog.lastBlockNumber (Watchdog.this p))))
  /\ (forall p meta,
         In (Watchdog.nextHandle p,
             Watchdog.now p + Watchdog.UPDATE_VALIDATORS_TIMEOUT_MS)
            (Watchdog.pending (Watchdog.updateValidatorsResolved meta p))
         /\ Watchdog.updateDeadlineTimer
              (Watchdog.this (Watchdog.updateValidatorsResolved meta p))
            = Some (Watchdog.nextHandle p))
  /\ (forall p meta handle due steps,
         Watchdog.exited p = None ->
         In (handle, due) (Watchdog.pending p) ->
         Watchdog.timestamp meta = 0
         \/ Watchdog.timestamp meta * 1000
            + Watchdog.UPDATE_VALIDATORS_TIMEOUT_MS <= Watchdog.now p ->
         forallb Watchdog.isElapse steps = true ->
         Watchdog.now p < due ->
         due <= Watchdog.now p + Watchdog.elapsed steps ->
         In (handle, due)
            (Watchdog.pending
               (Watchdog.updateValidatorsResolved (Some meta) p))
         /\ Watchdog.exited
              (Watchdog.run steps
                 (Watchdog.updateValidatorsResolved (Some meta) p))
            = Some (1, Watchdog.outdated
                         (Some (Watchdog.blockNumber meta))))
  /\ (forall p meta handle due steps,
         Watchdog.exited p = None ->
         In (handle, due) (Watchdog.pending p) ->
         Watchdog.updateDeadlineTimer (Watchdog.this p) <> Some handle ->
         forallb Watchdog.isElapse steps = true ->
         Watchdog.now p < due ->
         due <= Watchdog.now p + Watchdog.elapsed steps ->
         In (handle, due)
            (Watchdog.pending (Watchdog.updateValidatorsResolved meta p))
         /\ Watchdog.exited
              (Watchdog.run steps (Watchdog.updateValidatorsResolved meta p))
            = Some (1, Watchdog.outdated
                         (Watchdog.lastBlockNumber
                            (Watchdog.this
                               (Watchdog.updateValidatorsResolved meta p)))))
  /\ (forall p meta handle due steps,
         Watchdog.exited p = None ->
         Watchdog.pending p = [(handle, due)] ->
         Watchdog.updateDeadlineTimer (Watchdog.this p) = Some handle ->
         Watchdog.timestamp meta <> 0 ->
         Watchdog.now p
         < Watchdog.timestamp meta * 1000
           + Watchdog.UPDATE_VALIDATORS_TIMEOUT_MS ->
         forallb Watchdog.isElapse steps = true ->
         Watchdog.elapsed steps < Watchdog.UPDATE_VALIDATORS_TIMEOUT_MS ->
         Watchdog.pending (Watchdog.updateValidatorsResolved (Some meta) p)
         = [(Watchdog.nextHandle p,
             Watchdog.now p + Watchdog.UPDATE_VALIDATORS_TIMEOUT_MS)]
         /\ Watchdog.exited
              (Watchdog.run steps
                 (Watchdog.updateValidatorsResolved (Some meta) p))
            = None).
Proof.
  split; [reflexivity|]. split; [|split; [|split; [|split]]].
  - intros p steps Hrun Hsteps Hle.
    destruct (check_arms p) as (timers & Hpending & Hnow & Hblock & Hexited).
    destruct (earliest_last timers (Watchdog.nextHandle p)
                (Watchdog.now p + Watchdog.UPDATE_VALIDATORS_TIMEOUT_MS))
      as (first & Hfirst & Hdue).
    rewrite <- Hblock.
    apply (run_elapse_fires steps _ first).
    + now rewrite Hexited.
    + now rewrite Hpending.
    + assumption.
    + intros ->. cbn in Hle. vm_compute in Hle. now apply Hle.
    + rewrite Hnow. lia.
  - intros p meta. split; [apply cycle_arms|].
    apply (cycle_frame p meta).
  - intros p meta handle due steps Hrun Hin Hstale Hsteps Hnow Hdue.
    pose proof (stale_cycle_keeps_timers p meta _ Hstale Hin) as Hkept.
    split; [exact Hkept|].
    destruct (cycle_frame p (Some meta)) as (Hclock & Hexited & _).
    rewrite <- (cycle_last_block p meta).
    apply (pending_timer_fires steps _ handle due); auto.
    + now rewrite Hexited.
    + now rewrite Hclock.
    + now rewrite Hclock.
  - intros p meta handle due steps Hrun Hin Hother Hsteps Hnow Hdue.
    pose proof (cycle_keeps_other_timers p meta handle due Hin Hother)
      as Hkept.
    split; [exact Hkept|].
    destruct (cycle_frame p meta) as (Hclock & Hexited & _).
    apply (pending_timer_fires steps _ handle due); auto.
    + now rewrite Hexited.
    + now rewrite Hclock.
    + now rewrite Hclock.
  - intros p meta handle due steps Hrun Hpending Htimer Hts Hfresh Hsteps Hlt.
    assert (Harmed :
              Watchdog.pending (Watchdog.updateValidatorsResolved (Some meta) p)
              = [(Watchdog.nextHandle p,
                  Watchdog.now p + Watchdog.UPDATE_VALIDATORS_TIMEOUT_MS)]).
    { unfold Watchdog.updateValidatorsResolved,
        Watchdog.checkValidatorsUpdateTimeout.
      cbn [Watchdog.this Watchdog.updateDeadlineTimer]. rewrite Htimer.
      unfold Watchdog.isUpdated.
      cbn [Watchdog.this Watchdog.lastBlockTimestampSec Watchdog.now].
      apply N.eqb_neq in Hts. apply N.ltb_lt in Hfresh.
      rewrite Hts, Hfresh. cbn. rewrite Hpending. cbn.
      now rewrite Nat.eqb_refl. }
    split; [exact Harmed|].
    destruct (cycle_frame p (Some meta)) as (Hclock & Hexited & _).
    apply (run_elapse_waits steps _
             (Watchdog.now p + Watchdog.UPDATE_VALIDATORS_TIMEOUT_MS)).
    + now rewrite Hexited.
    + now rewrite Harmed.
    + assumption.
    + rewrite Hclock. lia.
Qed.

Lemma watchdog_deadline_witness :
  Watchdog.exited
    (Watchdog.run [Watchdog.Elapse 5000000; Watchdog.Elapse 400000]
       (Watchdog.checkValidatorsUpdateTimeout
          (Watchdog.start Fixture.wallClock)))
  = Some (1, Watchdog.outdated None)
  /\ Watchdog.exited
       (Watchdog.run [Watchdog.Elapse 5399000]
          (Watchdog.updateValidatorsResolved (Some Fixture.staleMeta)
             (Watchdog.run [Watchdog.Elapse 1000]
                (Watchdog.initialize Fixture.wallClock))))
     = Some (1, Watchdog.outdated (Some 100))
  /\ Watchdog.exited
       (Watchdog.run [Watchdog.Elapse 5399000]
          (Watchdog.updateValidatorsResolved (Some Fixture.freshMeta)
             (Watchdog.run
                [Watchdog.Elapse 1000;
                 Watchdog.CycleSucceeded (Some Fixture.staleMeta)]
                (Watchdog.initialize Fixture.wallClock))))
     = Some (1, Watchdog.outdated (Some 101))
  /\ Watchdog.exited
       (Watchdog.run [Watchdog.Elapse 5399999]
          (Watchdog.updateValidatorsResolved (Some Fixture.freshMeta)
             (Watchdog.initialize Fixture.wallClock)))
     = None.
Proof.
  destruct watchdog_deadline
    as (_ & Hsilent & _ & Hstale & Hother & Hfresh).
  split; [|split; [|split]].
  - apply (Hsilent (Watchdog.start Fixture.wallClock)
             [Watchdog.Elapse 5000000; Watchdog.Elapse 400000]).
    + reflexivity.
    + reflexivity.
    + vm_compute. discriminate.
  - apply (Hstale (Watchdog.run [Watchdog.Elapse 1000]
                     (Watchdog.initialize Fixture.wallClock))
             Fixture.staleMeta O (Fixture.wallClock + 5400000)
             [Watchdog.Elapse 5399000]).
    + reflexivity.
    + vm_compute. left. reflexivity.
    + right. vm_compute. discriminate.
    + reflexivity.
    + vm_compute. reflexivity.
    + vm_compute. discriminate.
  - apply (Hother (Watchdog.run
                     [Watchdog.Elapse 1000;
                      Watchdog.CycleSucceeded (Some Fixture.staleMeta)]
                     (Watchdog.initialize Fixture.wallClock))
             (Some Fixture.freshMeta) O (Fixture.wallClock + 5400000)
             [Watchdog.Elapse 5399000]).
    + reflexivity.
    + vm_compute. left. reflexivity.
    + vm_compute. discriminate.
    + reflexivity.
    + vm_compute. reflexivity.
    + vm_compute. discriminate.
  - apply (Hfresh (Watchdog.initialize Fixture.wallClock) Fixture.freshMeta
             O (Fixture.wallClock + Watchdog.UPDATE_VALIDATORS_TIMEOUT_MS)
             [Watchdog.Elapse 5399999]).
    + reflexivity.
    + reflexivity.
    + reflexivity.
    + vm_compute. discriminate.
    + vm_compute. reflexivity.
    + reflexivity.
    + vm_compute. reflexivity.
Defined.
